(** * A shallow embedding of [split_catchment] (delineator_utils/merit_detailed.py)
    and of [get_largest] (delineator_utils/util.py).

    Python floats are modelled as the rationals [Q] they denote; each float
    operation of the window and of the snap nudge is the exact result rounded to
    binary64 by [fl]. Grids read with pysheds (numpy arrays) are row-major
    [list (list Z)] and boolean rasters [list (list bool)], indexed by
    [(row, col)]. *)

From Stdlib Require Import QArith Qabs Qround Qminmax Lqa ZArith Lia.
From Stdlib Require Import DecimalZ.
From stdpp Require Import base list sets strings.

(* ------------------------------------------------------------------ *)
(** ** Binary64 rounding *)

Section Binary64.
Local Open Scope Z_scope.

(** The integer nearest to [n / d] ([d > 0]), ties to even. *)
Definition round_half_even (n d : Z) : Z :=
  let q := n / d in
  match Z.compare (2 * (n mod d)) d with
  | Lt => q
  | Gt => q + 1
  | Eq => if Z.even q then q else q + 1
  end.

(** For [x * 2^1074 = N / D], the exponent (in units of [2^-1074]) of the last
    place of a 53-bit significand: [max 0 (floor (log2 |N / D|) - 52)]. *)
Definition ulp_exp (N D : Z) : Z :=
  let t := Z.log2 (Z.abs N) - Z.log2 D in
  let t' := if (0 <=? t) && (2 ^ t * D <=? Z.abs N) then t else t - 1 in
  Z.max 0 (t' - 52).

Definition emin_pow : positive := 2 ^ 1074.

(** IEEE 754 binary64 round-to-nearest-even, subnormals included; no overflow
    (the values met here are far below [2^1024]). *)
Definition fl (x : Q) : Q :=
  let N := Qnum x * Z.pos emin_pow in
  let D := Z.pos (Qden x) in
  let k := ulp_exp N D in
  Qred (round_half_even N (D * 2 ^ k) * 2 ^ k # emin_pow).

End Binary64.

(* ------------------------------------------------------------------ *)
(** ** The pixel-aligned window (merit_detailed.py, lines 77-101) *)

Section Window.
Local Open Scope Q_scope.

(** [halfpix = 0.000416667], the float nearest to the literal *)
Definition halfpix : Q := fl (416667 # 1000000000).

(** A bounding box [(xmin, ymin, xmax, ymax)], as shapely's [.bounds]. *)
Record bbox := BBox { xmin : Q; ymin : Q; xmax : Q; ymax : Q }.

(** [floor(b * 1200) / 1200 - halfpix]: float product, numpy floor, float division
    and float subtraction. *)
Definition window_lo (b : Q) : Q :=
  fl (fl (inject_Z (Qfloor (fl (b * 1200))) / 1200) - halfpix).

(** [ceil(b * 1200) / 1200 + halfpix] *)
Definition window_hi (b : Q) : Q :=
  fl (fl (inject_Z (Qceiling (fl (b * 1200))) / 1200) + halfpix).

(** [bounds_list[0] = floor(bounds_list[0] * 1200) / 1200 - halfpix], etc. *)
Definition grid_window (b : bbox) : bbox :=
  BBox (window_lo (xmin b)) (window_lo (ymin b)) (window_hi (xmax b)) (window_hi (ymax b)).

End Window.

(* ------------------------------------------------------------------ *)
(** ** Grids and the masking loops (lines 143-147 and 173-177) *)

Abbreviation cell := (nat * nat)%type.

(** numpy indexing [g[i, j]]; [None] where numpy would raise [IndexError]. *)
Definition get {A} (g : list (list A)) (c : cell) : option A :=
  g !! c.1 ≫= fun r => r !! c.2.

(** numpy assignment [g[i, j] = v] *)
Definition set_cell {A} (g : list (list A)) (i j : nat) (v : A) : list (list A) :=
  alter (fun r => <[j := v]> r) i g.

(** [if int(mymask[i, j]) == 0] *)
Definition mask_is_zero (b : option bool) : bool :=
  match b with Some false => true | _ => false end.

(** The loop body for one cell [(i, j)]. *)
Definition mask_step (mymask : list (list bool)) (i : nat) (g : list (list Z)) (j : nat)
    : list (list Z) :=
  if mask_is_zero (get mymask (i, j)) then set_cell g i j 0%Z else g.

(** [for i in range(0, m): for j in range(0, n): if int(mymask[i, j]) == 0: g[i, j] = 0] *)
Definition mask_grid (m n : nat) (mymask : list (list bool)) (g : list (list Z))
    : list (list Z) :=
  fold_left (fun g i => fold_left (mask_step mymask i) (seq 0 n) g) (seq 0 m) g.

(** A grid of [m] rows of [n] columns ([grid.shape == (m, n)]). *)
Definition shaped {A} (m n : nat) (g : list (list A)) : Prop :=
  length g = m /\ Forall (fun r => length r = n) g.

(** The value a masked cell ends with. *)
Definition masked_val (mymask : list (list bool)) (c : cell) (x : Z) : Z :=
  if mask_is_zero (get mymask c) then 0%Z else x.

(** [streams = acc > numpixels] *)
Definition threshold_grid (numpixels : Z) (acc : list (list Z)) : list (list bool) :=
  map (map (fun a => Z.ltb numpixels a)) acc.

(* ------------------------------------------------------------------ *)
(** ** Geometry and [get_largest] (util.py, lines 37-62) *)

Abbreviation point := (Q * Q)%type.

Section Geometry.
Local Open Scope Q_scope.

(** A shapely [Polygon]: exterior ring and holes. *)
Record polygon := Polygon { exterior : list point; interiors : list (list point) }.

(** The shapely geometries met here. *)
Inductive geom :=
| GPolygon (p : polygon)
| GMultiPolygon (ps : list polygon).

Definition cross (p q : point) : Q := p.1 * q.2 - q.1 * p.2.

(** Shoelace sum of a ring, closed back to its first vertex. *)
Fixpoint shoelace (first : point) (ring : list point) : Q :=
  match ring with
  | [] => 0
  | [p] => cross p first
  | p :: ((q :: _) as rest) => cross p q + shoelace first rest
  end.

Definition ring_area (r : list point) : Q :=
  match r with [] => 0 | p :: _ => Qabs (shoelace p r) / 2 end.

(** shapely's [.area]: the exterior's area minus the holes' areas. *)
Definition area (p : polygon) : Q :=
  ring_area (exterior p) - fold_right (fun h acc => ring_area h + acc) 0 (interiors p).

(** Python's [list.index] on floats; [None] where it raises [ValueError]. *)
Fixpoint index_of (x : Q) (l : list Q) : option nat :=
  match l with
  | [] => None
  | y :: l' => if Qeq_bool y x then Some 0%nat else S <$> index_of x l'
  end.

(** [get_largest]; [None] where [max([])] raises [ValueError]. *)
Definition get_largest (input_poly : geom) : option geom :=
  match input_poly with
  | GMultiPolygon polygons =>
      let areas := map area polygons in
      match areas with
      | [] => None
      | a :: rest =>
          max_index ← index_of (fold_left Qmax rest a) areas;
          p ← polygons !! max_index;
          Some (GPolygon p)
      end
  | GPolygon _ => Some input_poly
  end.

(** shapely's [.bounds] over the exterior vertices (all zero for an empty geometry). *)
Definition points_of (g : geom) : list point :=
  match g with
  | GPolygon p => exterior p
  | GMultiPolygon ps => concat (map exterior ps)
  end.

Definition geom_bounds (g : geom) : bbox :=
  match points_of g with
  | [] => BBox 0 0 0 0
  | p :: ps =>
      BBox (fold_left (fun a q => Qmin a q.1) ps p.1)
           (fold_left (fun a q => Qmin a q.2) ps p.2)
           (fold_left (fun a q => Qmax a q.1) ps p.1)
           (fold_left (fun a q => Qmax a q.2) ps p.2)
  end.

End Geometry.

(* ------------------------------------------------------------------ *)
(** ** [split_catchment] (merit_detailed.py, lines 25-272) *)

(** The collaborators [split_catchment] calls: pysheds (grid shape, rasterize,
    windowed reads, [snap_to_mask], [catchment] with [clip_to] and [view],
    [polygonize]), shapely's [unary_union] and the two config thresholds.
    A call that raises is [None]. *)
Record Env := MkEnv {
  grid_shape : bbox -> nat * nat;
  rasterize : bbox -> list polygon -> list (list bool);
  read_flowdir : bbox -> list (list Z);
  read_accum : bbox -> list (list Z);
  snap_to_mask : list (list bool) -> Q * Q -> option (Q * Q);
  catchment : list (list Z) -> Q -> Q -> list Z -> option (list (list Z));
  polygonize : list (list Z) -> list (list (list point));
  unary_union : list polygon -> geom;
  THRESHOLD_SINGLE : Z;
  THRESHOLD_MULTIPLE : Z }.

(** The arguments of [split_catchment] read by its body. *)
Record request := MkRequest {
  lat : Q; lng : Q; catchment_poly : geom; bSingleCatchment : bool }.

(** The values the function returns: [(poly, lat_snap, lng_snap)] with [None] for
    Python's [None]; [Raised] for an uncaught exception. *)
Inductive outcome :=
| Raised
| Returned (poly : option geom) (a b : option Q).

(** A call to an external routine, with the two local rasters as they are at the call. *)
Inductive event :=
| ESnap (fdir acc : list (list Z)) (streams : list (list bool)) (xy : Q * Q)
| ECatchment (fdir acc : list (list Z)) (x y : Q).

Definition event_fdir (e : event) : list (list Z) :=
  match e with ESnap f _ _ _ => f | ECatchment f _ _ _ => f end.
Definition event_acc (e : event) : list (list Z) :=
  match e with ESnap _ a _ _ => a | ECatchment _ a _ _ => a end.

(** [dirmap = (64, 128, 1, 2, 4, 8, 16, 32)] *)
Definition dirmap : list Z := [64; 128; 1; 2; 4; 8; 16; 32]%Z.

(** Lines 77-197: window, mask, masked rasters, threshold and stream grid. *)
Record prepared := MkPrepared {
  bounding_box : bbox;
  shape_m : nat; shape_n : nat;
  mymask : list (list bool);
  fdir : list (list Z);
  acc : list (list Z);
  numpixels : Z;
  streams : list (list bool) }.

Definition prepare (env : Env) (req : request) : option prepared :=
  let bounding_box := grid_window (geom_bounds (catchment_poly req)) in
  let '(m, n) := grid_shape env bounding_box in
  match get_largest (catchment_poly req) with
  | Some (GPolygon poly) =>
      let filled_poly := Polygon (exterior poly) [] in
      let mymask := rasterize env bounding_box [filled_poly] in
      let fdir := mask_grid m n mymask (read_flowdir env bounding_box) in
      let acc := mask_grid m n mymask (read_accum env bounding_box) in
      let numpixels :=
        if bSingleCatchment req then THRESHOLD_SINGLE env else THRESHOLD_MULTIPLE env in
      Some (MkPrepared bounding_box m n mymask fdir acc numpixels (threshold_grid numpixels acc))
  | _ => None
  end.

(** [Polygon([[p[0], p[1]] for p in pysheds_polygon['coordinates'][0]])] *)
Definition shape_to_polygon (coords : list (list point)) : option polygon :=
  ring ← coords !! 0%nat; Some (Polygon ring []).

(** Lines 246-266: dissolve the shapes and keep one polygon. *)
Definition result_polygon_of (env : Env) (shapes : list (list (list point))) : option geom :=
  shapely_polygons ← mapM shape_to_polygon shapes;
  if Nat.ltb 1 (length shapes) then
    match unary_union env shapely_polygons with
    | GMultiPolygon ps => get_largest (GMultiPolygon ps)
    | g => Some g
    end
  else
    p ← shapely_polygons !! 0%nat; Some (GPolygon p).

Definition split_catchment (env : Env) (req : request) : outcome * list event :=
  match prepare env req with
  | None => (Raised, [])
  | Some pr =>
      let xy := (lng req, lat req) in
      let ev_snap := ESnap (fdir pr) (acc pr) (streams pr) xy in
      match snap_to_mask env (streams pr) xy with
      | None => (Returned None None None, [ev_snap])
      | Some (lng_snap, lat_snap) =>
          let ev_catch := ECatchment (fdir pr) (acc pr) lng_snap lat_snap in
          match catchment env (fdir pr) lng_snap lat_snap dirmap with
          | None => (Returned None (Some lng_snap) (Some lat_snap), [ev_snap; ev_catch])
          | Some clipped_catch =>
              let shapes := polygonize env clipped_catch in
              let lng_snap' := fl (lng_snap + halfpix)%Q in
              let lat_snap' := fl (lat_snap - halfpix)%Q in
              match result_polygon_of env shapes with
              | None => (Raised, [ev_snap; ev_catch])
              | Some result_polygon =>
                  (Returned (Some result_polygon) (Some lat_snap') (Some lng_snap'),
                   [ev_snap; ev_catch])
              end
          end
      end
  end.

(* ------------------------------------------------------------------ *)
(** ** The upstream trace *)

(** Modelled from the spec: pysheds' [grid.catchment] (an external library called
    at lines 216-221) as the traversal of section 4.5. A cell with a D8 code of
    [dirmap] has one downstream neighbour; starting from the seed, every
    neighbour that drains into the cell being expanded is admitted; a neighbour
    admitted twice is a cycle ([InvalidFlowGraph], [None]). *)

(** The offsets [(drow, dcol)] of N, NE, E, SE, S, SW, W, NW, in [dirmap]'s order. *)
Definition offsets : list (Z * Z) :=
  [(-1, 0); (-1, 1); (0, 1); (1, 1); (1, 0); (1, -1); (0, -1); (-1, -1)]%Z.

Definition in_grid (m n : nat) (r c : Z) : option cell :=
  if (0 <=? r)%Z && (r <? Z.of_nat m)%Z && (0 <=? c)%Z && (c <? Z.of_nat n)%Z
  then Some (Z.to_nat r, Z.to_nat c) else None.

Fixpoint code_offset (code : Z) (dm : list Z) (offs : list (Z * Z)) : option (Z * Z) :=
  match dm, offs with
  | d :: dm', o :: offs' => if Z.eqb d code then Some o else code_offset code dm' offs'
  | _, _ => None
  end.

(** The cell [v] drains into; [None] for code 0, any code outside [dirmap], or flow
    leaving the window. *)
Definition downstream (m n : nat) (fdir : list (list Z)) (v : cell) : option cell :=
  code ← get fdir v;
  '(dr, dc) ← code_offset code dirmap offsets;
  in_grid m n (Z.of_nat v.1 + dr) (Z.of_nat v.2 + dc).

Definition neighbours (m n : nat) (u : cell) : list cell :=
  omap (fun '(dr, dc) => in_grid m n (Z.of_nat u.1 + dr) (Z.of_nat u.2 + dc)) offsets.

Fixpoint trace_loop (m n : nat) (fdir : list (list Z)) (fuel : nat)
    (visited frontier : list cell) : option (list cell) :=
  match fuel with
  | O => None
  | S fuel' =>
      match frontier with
      | [] => Some visited
      | u :: rest =>
          let preds := filter (fun v => downstream m n fdir v = Some u) (neighbours m n u) in
          if existsb (fun v => bool_decide (v ∈ visited)) preds then None
          else trace_loop m n fdir fuel' (visited ++ preds) (rest ++ preds)
      end
  end.

(** Breadth-first, bounded by the number of cells of the window. *)
Definition upstream_trace (m n : nat) (fdir : list (list Z)) (seed : cell)
    : option (list cell) :=
  trace_loop m n fdir (S (m * n)) [seed] [seed].

(* ------------------------------------------------------------------ *)
(** ** A small concrete environment *)

Section Demo.
Local Open Scope Q_scope.

(** A window whose upper-left corner is (0, 0), with 1/1200-degree pixels; the
    centre is returned as floats. *)
Definition pixel_center (c : cell) : Q * Q :=
  (fl ((inject_Z (Z.of_nat c.2) + (1 # 2)) * (1 # 1200)),
   fl (- ((inject_Z (Z.of_nat c.1) + (1 # 2)) * (1 # 1200)))).

Definition cells_of {A} (g : list (list A)) : list cell :=
  concat (imap (fun i r => imap (fun j _ => (i, j)) r) g).

(** Snaps to the first stream cell in row-major order; raises when there is none. *)
Definition demo_snap (s : list (list bool)) (xy : Q * Q) : option (Q * Q) :=
  pixel_center <$> head (filter (fun c => get s c = Some true) (cells_of s)).

Definition unit_square : list point := [(0, 0); (1, 0); (1, 1); (0, 1)].

Definition demo_env (ts tm : Z) (mask : list (list bool)) (fd ac : list (list Z))
    (catch : option (list (list Z))) : Env :=
  MkEnv (fun _ => (length mask, match mask with r :: _ => length r | [] => 0%nat end))
        (fun _ _ => mask) (fun _ => fd) (fun _ => ac) demo_snap (fun _ _ _ _ => catch)
        (fun _ => [[unit_square]]) GMultiPolygon ts tm.

(** The floats [0.0016666666666666668 = fl (1/600)], [-0.001] and [0.001]. *)
Definition demo_poly : polygon :=
  Polygon [(0, 0); (fl (1 # 600), 0); (fl (1 # 600), fl (- (1 # 600))); (0, fl (- (1 # 600)))] [].

Definition demo_req : request :=
  MkRequest (fl (- (1 # 1000))) (fl (1 # 1000)) (GPolygon demo_poly) true.

Definition demo_mask : list (list bool) := [[true; false]; [true; true]].
Definition demo_fdir : list (list Z) := [[4; 16]; [1; 4]]%Z.
Definition demo_acc : list (list Z) := [[1; 9]; [2; 4]]%Z.

(** Two disjoint squares of areas 100 and 2. *)
Definition square100 : polygon := Polygon [(0, 0); (10, 0); (10, 10); (0, 10)] [].
Definition square2 : polygon := Polygon [(20, 0); (22, 0); (22, 1); (20, 1)] [].

(** The demo runs: the trace raises, or it yields one pixel. *)
Definition env_fail : Env := demo_env 2 4 demo_mask demo_fdir demo_acc None.
Definition env_ok : Env := demo_env 2 4 demo_mask demo_fdir demo_acc (Some [[1]]%Z).

Definition no_prepared : prepared := MkPrepared (BBox 0 0 0 0) 0 0 [] [] [] 0 [].

Definition prepared_of (env : Env) (req : request) : prepared :=
  default no_prepared (prepare env req).

End Demo.

(* ------------------------------------------------------------------ *)
(** ** Duplicates (util.py, lines 85-110) *)

Section Duplicates.
Context {A : Type} `{EqDecision A}.

(** [len(set(lst))]: the number of distinct items. *)
Definition set_len (lst : list A) : nat := length (remove_dups lst).

(** [return len(lst) == len(set(lst))] *)
Definition has_unique_elements (lst : list A) : bool := Nat.eqb (length lst) (set_len lst).

(** [s.add(x)] on a Python set held as a list without repeats. The iteration
    order of a set is not fixed by Python, so what is proved of
    [list(duplicates)] is about its members only. *)
Definition set_add (x : A) (s : list A) : list A := if decide (x ∈ s) then s else s ++ [x].

(** The loop body of [find_repeated_elements] on [(seen, duplicates)]. *)
Definition find_repeated_step (st : list A * list A) (elem : A) : list A * list A :=
  let '(seen, duplicates) := st in
  if decide (elem ∈ seen) then (seen, set_add elem duplicates)
  else (set_add elem seen, duplicates).

(** [seen = set(); duplicates = set(); for elem in lst: ...; return list(duplicates)] *)
Definition find_repeated_elements (lst : list A) : list A :=
  snd (fold_left find_repeated_step lst ([], [])).

(** [lst.count(x)] *)
Definition occurrences (x : A) (lst : list A) : nat := length (filter (fun y => y = x) lst).

End Duplicates.

(* ------------------------------------------------------------------ *)
(** ** Validation of the outlets table (util.py, lines 119-187) *)

(** The values of the [id] and [outlet_id] columns as [pd.read_csv] gives them:
    Python ints (an [int64] column) or strings (an [object] column). Missing
    values (NaN) are not modelled. *)
Inductive pyval := PInt (z : Z) | PStr (s : string).

#[global] Instance pyval_eq_dec : EqDecision pyval.
Proof. solve_decision. Defined.

(** The decimal digits of an unsigned decimal numeral. *)
Fixpoint uint_str (d : Decimal.uint) : string :=
  match d with
  | Decimal.Nil => ""
  | Decimal.D0 d => "0" +:+ uint_str d
  | Decimal.D1 d => "1" +:+ uint_str d
  | Decimal.D2 d => "2" +:+ uint_str d
  | Decimal.D3 d => "3" +:+ uint_str d
  | Decimal.D4 d => "4" +:+ uint_str d
  | Decimal.D5 d => "5" +:+ uint_str d
  | Decimal.D6 d => "6" +:+ uint_str d
  | Decimal.D7 d => "7" +:+ uint_str d
  | Decimal.D8 d => "8" +:+ uint_str d
  | Decimal.D9 d => "9" +:+ uint_str d
  end.

(** [str(z)] for a Python int. *)
Definition str_Z (z : Z) : string :=
  match Z.to_int z with
  | Decimal.Pos u => uint_str u
  | Decimal.Neg u => "-" +:+ uint_str u
  end.

(** [str(v)] *)
Definition py_str (v : pyval) : string :=
  match v with PInt z => str_Z z | PStr s => s end.

(** A DataFrame column read as [float64], with its values, or of another dtype. *)
Inductive column := Float64 (xs : list Q) | OtherDtype.

(** The parts of [gages_df] that [validate] reads and writes. The number of rows,
    [len(gages_df)], is the length of the [id] column. *)
Record table := MkTable {
  columns : list string;
  col_id : list pyval;
  col_lat : column;
  col_lng : column;
  col_outlet_id : list pyval }.

(** Python's [x < y] on floats. *)
Definition py_lt (x y : Q) : bool := negb (Qle_bool y x).

(** The UTF-8 encoding of the degree sign in the messages. *)
Definition deg : string := String (Ascii.ascii_of_nat 194) (String (Ascii.ascii_of_nat 176) "").

Definition required_cols : list string := ["id"; "lat"; "lng"; "outlet_id"].

(** What [validate] does: return [True] or raise [ValueError(msg)]. *)
Inductive validation := ReturnsTrue | RaisesValueError (msg : string).

(** [gages_df['id'] = gages_df['id'].astype(str)] *)
Definition id_astype_str (t : table) : table :=
  MkTable (columns t) (map (fun v => PStr (py_str v)) (col_id t)) (col_lat t) (col_lng t)
    (col_outlet_id t).

(** [gages_df['outlet_id'] = gages_df['outlet_id'].astype(str)] *)
Definition outlet_id_astype_str (t : table) : table :=
  MkTable (columns t) (col_id t) (col_lat t) (col_lng t)
    (map (fun v => PStr (py_str v)) (col_outlet_id t)).

(** [validate(gages_df)], with the caller's DataFrame as it is left: the two
    [astype(str)] assignments change it in place. *)
Definition validate (gages_df : table) : validation * table :=
  match List.find (fun col => negb (bool_decide (col ∈ columns gages_df))) required_cols with
  | Some col => (RaisesValueError ("Missing column in CSV file: " +:+ col), gages_df)
  | None =>
  if negb (Nat.eqb (set_len (col_id gages_df)) (length (col_id gages_df))) then
    (RaisesValueError "Each id in your CSV file must be unique.", gages_df) else
  match col_lat gages_df, col_lng gages_df with
  | OtherDtype, _ => (RaisesValueError "In outlets CSV, the column lat is not numeric.", gages_df)
  | _, OtherDtype => (RaisesValueError "In outlets CSV, the column lng is not numeric.", gages_df)
  | Float64 lats, Float64 lngs =>
  if negb (forallb (fun lat => py_lt (-60) lat) lats) then
    (RaisesValueError ("All latitudes must be greater than -60" +:+ deg), gages_df) else
  if negb (forallb (fun lat => py_lt lat 85) lats) then
    (RaisesValueError ("All latitudes must be less than 85" +:+ deg), gages_df) else
  if negb (forallb (fun lng => py_lt (-180) lng) lngs) then
    (RaisesValueError ("All longitudes must be greater than -180" +:+ deg), gages_df) else
  if negb (forallb (fun lng => py_lt lng 180) lngs) then
    (RaisesValueError ("All longitudes must be less than 180" +:+ deg), gages_df) else
  let ids := col_id gages_df in
  if negb (forallb (fun wid => Nat.ltb 0 (String.length (py_str wid))) ids) then
    (RaisesValueError "Every watershed outlet must have an id in the CSV file", gages_df) else
  let gages_df := id_astype_str gages_df in
  if existsb (fun v => bool_decide (v = PStr "0")) (col_id gages_df) then
    (RaisesValueError "id of 0 not allowed in input csv", gages_df) else
  if negb (has_unique_elements ids) then
    (RaisesValueError "Outlet ids must be unique. No duplicates are allowed!", gages_df) else
  let gages_df := outlet_id_astype_str gages_df in
  let outlet_ids := col_outlet_id gages_df in
  if forallb (fun o => bool_decide (o ∈ ids)) outlet_ids then (ReturnsTrue, gages_df)
  else (RaisesValueError "outlet_id's must reference id's in the same input CSV", gages_df)
  end
  end.

(* ------------------------------------------------------------------ *)
(** ** Output folders (util.py, lines 65-82 and 301-319) *)

Section Folders.
(** The file system, with [os.path.exists] and [os.makedirs]; [makedirs] gives
    the new state and [false] where it raises. *)
Variable FS : Type.
Variable path_exists : FS -> string -> bool.
Variable makedirs : FS -> string -> FS * bool.

(** [create_folder_if_not_exists(folder_path)] *)
Definition create_folder_if_not_exists (fs : FS) (folder_path : string) : FS * bool :=
  if negb (path_exists fs folder_path) then makedirs fs folder_path else (fs, true).

(** The loop of [make_folders]; [Some msg] where it raises [Exception(msg)]. *)
Fixpoint make_folders_loop (folders : list string) (fs : FS) : FS * option string :=
  match folders with
  | [] => (fs, None)
  | folder :: rest =>
      if String.eqb folder "" then make_folders_loop rest fs
      else
        let '(fs', folder_exists) := create_folder_if_not_exists fs folder in
        if folder_exists then make_folders_loop rest fs'
        else (fs', Some ("Could not create folder `" +:+ folder +:+ "`. Stopping"))
  end.

(** [make_folders()] over [config.get("OUTPUT_DIR")], [PLOTS_DIR] and [CACHE_DIR]. *)
Definition make_folders (OUTPUT_DIR PLOTS_DIR CACHE_DIR : string) (fs : FS)
    : FS * option string :=
  make_folders_loop [OUTPUT_DIR; PLOTS_DIR; CACHE_DIR] fs.

End Folders.

(* ------------------------------------------------------------------ *)
(** ** Saving the river network (util.py, lines 453-490) *)

(** The writer [save_network] hands the graph to. *)
Inductive graph_writer := PickleDump | JsonDump | WriteGml | WriteGraphml.

(** [SaveWarning msg] where it raises [Warning(msg)], [SaveValueError msg] where it
    raises [ValueError(msg)]. *)
Inductive save_outcome :=
| SaveWarning (msg : string)
| Saved (w : graph_writer) (filename : string)
| SaveValueError (msg : string).

Definition allowed_formats : list string := ["pkl"; "gml"; "xml"; "json"].

(** [save_network(G, prefix, file_ext)], with [config.get("OUTPUT_DIR")]; the graph
    is passed unchanged to the writer and is left out. *)
Definition save_network (OUTPUT_DIR prefix file_ext : string) : save_outcome :=
  if negb (bool_decide (file_ext ∈ allowed_formats)) then SaveWarning "Did not save graph data."
  else
    let filename := OUTPUT_DIR +:+ "/" +:+ prefix +:+ "_graph." +:+ file_ext in
    if String.eqb file_ext "pkl" then Saved PickleDump filename
    else if String.eqb file_ext "json" then Saved JsonDump filename
    else if String.eqb file_ext "gml" then Saved WriteGml filename
    else if String.eqb file_ext "xml" then Saved WriteGraphml filename
    else SaveValueError ("Unhandled file extension " +:+ file_ext).

(* ------------------------------------------------------------------ *)
(** ** The MERIT-Basins file paths of [load_gdf] (util.py, lines 345-374) *)

(** The URL passed to [download_if_missing] and the [local_path] read, from
    [config.get('CACHE_DIR')] and the [CATCHMENT_PATH] and [RIVER_PATH]
    environment variables; [None] where [file_name] is unbound
    ([UnboundLocalError]). *)
Definition load_gdf_paths (CACHE_DIR CATCHMENT_PATH RIVER_PATH : string)
    (geotype : string) (basin : Z) : option (string * string) :=
  '(file_name, remote_dir) ←
    (if String.eqb geotype "catchments" then
       Some ("cat_pfaf_" +:+ str_Z basin +:+ "_MERIT_Hydro_v07_Basins_v01.gpkg", CATCHMENT_PATH)
     else if String.eqb geotype "rivers" then
       Some ("riv_pfaf_" +:+ str_Z basin +:+ "_MERIT_Hydro_v07_Basins_v01.gpkg", RIVER_PATH)
     else None);
  let local_path := CACHE_DIR +:+ "/" +:+ file_name in
  Some (remote_dir +:+ "/" +:+ file_name, local_path).

(* ------------------------------------------------------------------ *)
(** ** Command-line options (scripts/subbasins.py, lines 36-70) *)

(** A value of [_GLOBAL_CONFIG]: a Python bool, int, float, str or [None]. *)
Inductive cval := CBool (b : bool) | CInt (z : Z) | CFloat (q : Q) | CStr (s : string) | CNone.

(** An option declared with [add_argument]: [action="store_true"] on a
    destination, or typed with a default. *)
Inductive argspec := StoreTrue (dest : string) | Typed (dest : string) (dflt : cval).

Definition dash : Ascii.ascii := Ascii.ascii_of_nat 45.
Definition underscore : Ascii.ascii := Ascii.ascii_of_nat 95.

(** argparse's destination for [--name]: [name] with each [-] made [_]. *)
Fixpoint dest_of (s : string) : string :=
  match s with
  | EmptyString => EmptyString
  | String c s' => String (if Ascii.eqb c dash then underscore else c) (dest_of s')
  end.

(** The option added for one entry [(key, default_val)] of [_GLOBAL_CONFIG]. *)
Definition arg_of (entry : string * cval) : argspec :=
  let '(key, default_val) := entry in
  match default_val with
  | CBool true => StoreTrue (dest_of ("NO_" +:+ key))
  | CBool false => StoreTrue (dest_of key)
  | _ => Typed (dest_of key) default_val
  end.

(** The attribute argparse sets for an option, given the values the command line
    supplies by destination ([Some _] for a flag that is present). *)
Definition arg_value (cmdline : string -> option cval) (a : argspec) : string * cval :=
  match a with
  | StoreTrue d => (d, CBool (if cmdline d then true else false))
  | Typed d dflt => (d, default dflt (cmdline d))
  end.

(** A Python dict as an association list in insertion order. *)
Definition dict_get (k : string) (d : list (string * cval)) : option cval :=
  snd <$> List.find (fun kv => String.eqb kv.1 k) d.

(** [d[k] = v] *)
Fixpoint dict_set (k : string) (v : cval) (d : list (string * cval)) : list (string * cval) :=
  match d with
  | [] => [(k, v)]
  | (k', v') :: d' => if String.eqb k' k then (k, v) :: d' else (k', v') :: dict_set k v d'
  end.

(** [vars(argparser.parse_args())]: the two positionals, then one attribute per option. *)
Definition parse_args (cfg : list (string * cval)) (input_csv output_prefix : string)
    (cmdline : string -> option cval) : list (string * cval) :=
  fold_left (fun ns kv => dict_set kv.1 kv.2 ns)
    (("input_csv", CStr input_csv) :: ("output_prefix", CStr output_prefix)
       :: map (fun e => arg_value cmdline (arg_of e)) cfg) [].

(** Python's truth value. *)
Definition truthy (v : cval) : bool :=
  match v with
  | CBool b => b
  | CInt z => negb (Z.eqb z 0)
  | CFloat q => negb (Qeq_bool q 0)
  | CStr s => negb (String.eqb s "")
  | CNone => false
  end.

(** [s.removeprefix(prefix)] *)
Definition removeprefix (prefix s : string) : string :=
  if String.prefix prefix s
  then String.substring (String.length prefix) (String.length s - String.length prefix) s
  else s.

(** [key in _GLOBAL_CONFIG] *)
Definition in_config (cfg : list (string * cval)) (key : string) : bool :=
  existsb (fun kv => String.eqb kv.1 key) cfg.

(** The body of the loop over [vars(args).items()]. *)
Definition config_step (cfg : list (string * cval)) (config_vals : list (string * cval))
    (kv : string * cval) : list (string * cval) :=
  let '(key, val) := kv in
  if in_config cfg key then dict_set key val config_vals
  else
    let stripped_key := removeprefix "NO_" key in
    if in_config cfg stripped_key then dict_set stripped_key (CBool (negb (truthy val))) config_vals
    else config_vals.

(** [config_vals] as passed to [delineate]. *)
Definition config_vals_of (cfg : list (string * cval)) (input_csv output_prefix : string)
    (cmdline : string -> option cval) : list (string * cval) :=
  fold_left (config_step cfg) (parse_args cfg input_csv output_prefix cmdline) [].

(** [s] has a [-] in it. *)
Fixpoint has_dash (s : string) : bool :=
  match s with
  | EmptyString => false
  | String c s' => Ascii.eqb c dash || has_dash s'
  end.

(** The value the command line gives a config key: [--NO_key] turns a [True]
    default off, [--key] turns a [False] default on, and any other option takes
    the value given or its default. *)
Definition cli_value (cmdline : string -> option cval) (key : string) (default_val : cval)
    : cval :=
  match default_val with
  | CBool true => CBool (negb (if cmdline ("NO_" +:+ key) then true else false))
  | CBool false => CBool (if cmdline key then true else false)
  | _ => default default_val (cmdline key)
  end.

(* ------------------------------------------------------------------ *)
(** ** Concrete inputs for the utilities *)

(** An outlets table read with integer ids, and the same with string ids. *)
Definition gages_int_ids : table :=
  MkTable ["id"; "lat"; "lng"; "outlet_id"] [PInt 1; PInt 2]
    (Float64 [45; 46]%Q) (Float64 [(-120); (-121)]%Q) [PInt 1; PInt 1].
Definition gages_str_ids : table :=
  MkTable ["id"; "lat"; "lng"; "outlet_id"] [PStr "a1"; PStr "a2"]
    (Float64 [45; 46]%Q) (Float64 [(-120); (-121)]%Q) [PStr "a1"; PStr "a1"].
Definition gages_no_outlet : table :=
  MkTable ["id"; "lat"; "lng"] [PStr "a1"] (Float64 [45]%Q) (Float64 [(-120)]%Q) [].

(** A file system as the list of existing folders, where [makedirs] always succeeds. *)
Definition list_exists (fs : list string) (p : string) : bool := bool_decide (p ∈ fs).
Definition list_makedirs (fs : list string) (p : string) : list string * bool := (p :: fs, true).

(** A configuration and a command line [--NO_VERBOSE --THRESHOLD 300]. *)
Definition demo_config : list (string * cval) :=
  [("VERBOSE", CBool true); ("PLOTS", CBool false); ("THRESHOLD", CInt 500);
   ("OUTPUT_EXT", CStr "gpkg")].
Definition demo_cmdline (d : string) : option cval :=
  if String.eqb d "NO_VERBOSE" then Some (CBool true)
  else if String.eqb d "THRESHOLD" then Some (CInt 300) else None.

(** Two squares of equal area. *)
Definition square100' : polygon := Polygon [(20, 0); (30, 0); (30, 10); (20, 10)]%Q [].

(** The demo environment where the traced catchment polygonizes to no shape. *)
Definition env_no_shapes : Env :=
  MkEnv (grid_shape env_ok) (rasterize env_ok) (read_flowdir env_ok) (read_accum env_ok)
        (snap_to_mask env_ok) (catchment env_ok) (fun _ => []) (unary_union env_ok)
        (THRESHOLD_SINGLE env_ok) (THRESHOLD_MULTIPLE env_ok).

(* ------------------------------------------------------------------ *)
(** ** Lemmas on grids *)

Lemma get_set_cell {A} (g : list (list A)) i j v c :
  get (set_cell g i j v) c =
  if decide (c = (i, j)) then (fun _ => v) <$> get g c else get g c.
Proof.
  destruct c as [i' j']. unfold get, set_cell; simpl.
  case_decide as Hc.
  - injection Hc as -> ->. rewrite list_lookup_alter_eq.
    destruct (g !! i) as [r|]; unfold mbind, option_bind; simpl; [|done].
    destruct (decide (j < length r)).
    + rewrite list_lookup_insert_eq by done.
      destruct (lookup_lt_is_Some_2 r j) as [a Ha]; [lia|by rewrite Ha].
    + rewrite list_insert_ge by lia. by rewrite (lookup_ge_None_2 r j) by lia.
  - destruct (decide (i' = i)) as [->|Hi].
    + rewrite list_lookup_alter_eq. destruct (g !! i) as [r|]; unfold mbind, option_bind;
        simpl; [|done].
      rewrite list_lookup_insert_ne by congruence. done.
    + by rewrite list_lookup_alter_ne by done.
Qed.

Lemma get_mask_step mymask i g j c :
  get (mask_step mymask i g j) c =
  if decide (c = (i, j)) then masked_val mymask c <$> get g c else get g c.
Proof.
  unfold mask_step, masked_val. case_decide as Hc.
  - subst c. destruct (mask_is_zero _).
    + rewrite get_set_cell. case_decide; [done|congruence].
    + destruct (get g (i, j)); done.
  - destruct (mask_is_zero _); [rewrite get_set_cell; case_decide; [congruence|]|]; done.
Qed.

Lemma masked_val_idem mymask c x :
  masked_val mymask c (masked_val mymask c x) = masked_val mymask c x.
Proof. unfold masked_val. destruct (mask_is_zero _); done. Qed.

Lemma get_fold_mask_step mymask i (l : list nat) g c :
  get (fold_left (mask_step mymask i) l g) c =
  if bool_decide (c.1 = i /\ c.2 ∈ l) then masked_val mymask c <$> get g c else get g c.
Proof.
  revert g. induction l as [|j l IH]; intros g; simpl.
  - case_bool_decide as H; [|done]. destruct H as [_ H]. by apply not_elem_of_nil in H.
  - rewrite IH, get_mask_step. destruct c as [i' j']; simpl.
    destruct (decide ((i', j') = (i, j))) as [Heq|Hne].
    + injection Heq as -> ->.
      rewrite (bool_decide_eq_true_2 (i = i /\ j ∈ j :: l))
        by (split; [done|]; rewrite elem_of_cons; by left).
      destruct (bool_decide (i = i /\ j ∈ l)); destruct (get g (i, j)); simpl;
        rewrite ?masked_val_idem; done.
    + replace (bool_decide (i' = i /\ j' ∈ l)) with (bool_decide (i' = i /\ j' ∈ j :: l));
        [done|].
      apply bool_decide_ext. rewrite elem_of_cons. split.
      * intros [-> [H|H]]; [congruence|]. done.
      * intros [-> H]. by split; [|right].
Qed.

Lemma get_mask_grid m n mymask g c :
  get (mask_grid m n mymask g) c =
  if bool_decide (c.1 < m /\ c.2 < n) then masked_val mymask c <$> get g c else get g c.
Proof.
  unfold mask_grid. assert (Hgen : forall (l : list nat) g,
    get (fold_left (fun g i => fold_left (mask_step mymask i) (seq 0 n) g) l g) c =
    if bool_decide (c.1 ∈ l /\ c.2 < n) then masked_val mymask c <$> get g c
    else get g c).
  { induction l as [|i l IH]; intros g'; cbn [fold_left].
    - case_bool_decide as H; [|done]. destruct H as [H _]. by apply not_elem_of_nil in H.
    - rewrite IH, get_fold_mask_step.
      destruct (bool_decide_reflect (c.1 ∈ l /\ c.2 < n)) as [H1|H1];
      destruct (bool_decide_reflect (c.1 = i /\ c.2 ∈ seq 0 n)) as [H2|H2];
      destruct (bool_decide_reflect (c.1 ∈ i :: l /\ c.2 < n)) as [H3|H3];
      rewrite elem_of_cons in H3; rewrite elem_of_seq in H2;
      destruct (get g' c); simpl; rewrite ?masked_val_idem; try done;
      exfalso; naive_solver lia. }
  rewrite Hgen.
  replace (bool_decide (c.1 ∈ seq 0 m /\ c.2 < n)) with (bool_decide (c.1 < m /\ c.2 < n));
    [done|].
  apply bool_decide_ext. rewrite elem_of_seq. lia.
Qed.

Lemma get_shaped_lt {A} m n (g : list (list A)) c x :
  shaped m n g -> get g c = Some x -> c.1 < m /\ c.2 < n.
Proof.
  intros [Hl Hr] Hg. unfold get in Hg. destruct (g !! c.1) as [r|] eqn:E; [|done].
  simpl in Hg. apply lookup_lt_Some in E as Hi. split; [lia|].
  apply lookup_lt_Some in Hg. rewrite Forall_lookup in Hr. specialize (Hr _ _ E). lia.
Qed.

Lemma get_shaped_Some {A} m n (g : list (list A)) c :
  shaped m n g -> c.1 < m -> c.2 < n -> is_Some (get g c).
Proof.
  intros [Hl Hr] Hi Hj. unfold get.
  destruct (lookup_lt_is_Some_2 g c.1) as [r E]; [lia|]. rewrite E. simpl.
  rewrite Forall_lookup in Hr. specialize (Hr _ _ E). apply lookup_lt_is_Some_2. lia.
Qed.

(** A cell left at a non-zero value by the masking loops lies inside the mask. *)
Lemma mask_grid_nonzero m n mymask g c x :
  shaped m n mymask -> shaped m n g ->
  get (mask_grid m n mymask g) c = Some x -> x <> 0%Z -> get mymask c = Some true.
Proof.
  intros Hm Hg Hc Hx. rewrite get_mask_grid in Hc. case_bool_decide as Hin.
  - destruct (get g c) as [y|] eqn:Ey; [|done]. simpl in Hc. injection Hc as <-.
    unfold masked_val in Hx. destruct (get_shaped_Some m n mymask c Hm) as [b Eb]; try tauto.
    rewrite Eb in Hx |- *. destruct b; [done|]. simpl in Hx. congruence.
  - exfalso. apply Hin. eapply get_shaped_lt; eauto.
Qed.

(** A cell outside the mask is zero after the masking loops. *)
Lemma mask_grid_zero m n mymask g c :
  shaped m n mymask -> shaped m n g -> c.1 < m -> c.2 < n ->
  get mymask c = Some false -> get (mask_grid m n mymask g) c = Some 0%Z.
Proof.
  intros Hm Hg Hi Hj Hc. rewrite get_mask_grid, bool_decide_eq_true_2 by done.
  destruct (get_shaped_Some m n g c Hg) as [y Ey]; try done.
  rewrite Ey. unfold masked_val. by rewrite Hc.
Qed.

Lemma get_threshold_grid t g c :
  get (threshold_grid t g) c = (fun a => Z.ltb t a) <$> get g c.
Proof.
  unfold get, threshold_grid. rewrite list_lookup_fmap.
  destruct (g !! c.1) as [r|]; simpl; [|done]. by rewrite list_lookup_fmap.
Qed.

Lemma code_offset_nonzero code o : code_offset code dirmap offsets = Some o -> code <> 0%Z.
Proof. intros H ->. discriminate H. Qed.

(* ------------------------------------------------------------------ *)
(** ** Lemmas on the upstream trace *)

Lemma downstream_Some m n fdir v u :
  downstream m n fdir v = Some u ->
  exists code o, get fdir v = Some code /\ code_offset code dirmap offsets = Some o.
Proof.
  unfold downstream, mbind, option_bind.
  destruct (get fdir v) as [code|]; [|discriminate].
  destruct (code_offset code dirmap offsets) as [o|] eqn:Eo; [|discriminate].
  intros _. by exists code, o.
Qed.

Lemma trace_loop_visited m n fdir fuel visited frontier res :
  trace_loop m n fdir fuel visited frontier = Some res -> visited ⊆ res.
Proof.
  revert visited frontier. induction fuel as [|fuel IH]; intros visited frontier H; [done|].
  simpl in H. destruct frontier as [|u rest]; [by injection H as <-|].
  destruct (existsb _ _); [done|]. apply IH in H. set_solver.
Qed.

(** Every admitted cell drains somewhere, so an invariant of draining cells and of
    the initial visited list holds of the result. *)
Lemma trace_loop_Forall (P : cell -> Prop) m n fdir fuel visited frontier res :
  (forall v u, downstream m n fdir v = Some u -> P v) ->
  Forall P visited -> trace_loop m n fdir fuel visited frontier = Some res -> Forall P res.
Proof.
  intros HP. revert visited frontier. induction fuel as [|fuel IH];
    intros visited frontier Hv H; [done|].
  simpl in H. destruct frontier as [|u rest]; [by injection H as <-|].
  destruct (existsb _ _); [done|]. apply IH in H; [done|].
  apply Forall_app; split; [done|]. apply Forall_forall. intros v Hv'.
  apply list_elem_of_filter in Hv' as [Hd _]. eauto.
Qed.


(* ------------------------------------------------------------------ *)
(** ** Lemmas on [get_largest] *)

Section GeometryLemmas.
Local Open Scope Q_scope.

Lemma fold_Qmax_ge_init (l : list Q) a : a <= fold_left Qmax l a.
Proof.
  revert a. induction l as [|b l IH]; intros a; simpl; [apply Qle_refl|].
  eapply Qle_trans; [apply Q.le_max_l|apply IH].
Qed.

Lemma fold_Qmax_ge (l : list Q) a x : x ∈ a :: l -> x <= fold_left Qmax l a.
Proof.
  revert a. induction l as [|b l IH]; intros a Hx; simpl.
  - apply list_elem_of_singleton in Hx as ->. apply Qle_refl.
  - rewrite !elem_of_cons in Hx. destruct Hx as [->|[->|Hx]].
    + eapply Qle_trans; [apply Q.le_max_l|apply fold_Qmax_ge_init].
    + eapply Qle_trans; [apply Q.le_max_r|apply fold_Qmax_ge_init].
    + apply IH. by right.
Qed.

Lemma fold_Qmax_in (l : list Q) a : exists y, y ∈ a :: l /\ y == fold_left Qmax l a.
Proof.
  revert a. induction l as [|b l IH]; intros a; simpl.
  - exists a. split; [by left|apply Qeq_refl].
  - destruct (IH (Qmax a b)) as (y & Hy & Heq). apply elem_of_cons in Hy as [->|Hy].
    + destruct (Q.max_dec a b) as [H|H].
      * exists a. split; [by left|]. eapply Qeq_trans; [apply Qeq_sym, H|exact Heq].
      * exists b. split; [by right; left|]. eapply Qeq_trans; [apply Qeq_sym, H|exact Heq].
    + exists y. split; [by right; right|done].
Qed.

Lemma index_of_found x (l : list Q) :
  (exists y, y ∈ l /\ y == x) -> exists i y, index_of x l = Some i /\ l !! i = Some y /\ y == x.
Proof.
  induction l as [|z l IH]; intros (y & Hy & Heq); [by apply not_elem_of_nil in Hy|].
  simpl. destruct (Qeq_bool z x) eqn:E.
  - exists 0%nat, z. split; [done|]. split; [done|]. by apply Qeq_bool_iff.
  - apply elem_of_cons in Hy as [->|Hy].
    + apply Qeq_bool_iff in Heq. congruence.
    + destruct IH as (i & w & Hi & Hw & Hweq); [by exists y|].
      exists (S i), w. rewrite Hi. done.
Qed.

Lemma get_largest_multi (ps : list polygon) :
  ps <> [] ->
  exists p, get_largest (GMultiPolygon ps) = Some (GPolygon p) /\ p ∈ ps /\
            forall q, q ∈ ps -> area q <= area p.
Proof.
  intros Hne. destruct ps as [|p0 ps']; [done|]. unfold get_largest. cbn [map].
  destruct (fold_Qmax_in (map area ps') (area p0)) as (y & Hy & Hyeq).
  destruct (index_of_found (fold_left Qmax (map area ps') (area p0)) (area p0 :: map area ps'))
    as (i & z & Hi & Hz & Hzeq); [by exists y|].
  rewrite Hi. simpl.
  assert (Hz' : map area (p0 :: ps') !! i = Some z) by done.
  rewrite list_lookup_fmap in Hz'. destruct ((p0 :: ps') !! i) as [p|] eqn:Ep; [|done].
  injection Hz' as <-. exists p. split; [done|]. split; [by eapply list_elem_of_lookup_2|].
  intros q Hq. rewrite Hzeq. apply fold_Qmax_ge.
  change (area q ∈ map area (p0 :: ps')). by apply list_elem_of_fmap_2.
Qed.

End GeometryLemmas.

(* ------------------------------------------------------------------ *)
(** ** Lemmas on binary64 rounding and the window *)

Section FloatLemmas.
Local Open Scope Q_scope.
Lemma round_half_even_spec n d :
  (0 < d)%Z -> (2 * Z.abs (round_half_even n d * d - n) <= d)%Z.
Proof.
  intros Hd. unfold round_half_even.
  pose proof (Z.div_mod n d ltac:(lia)) as Hdm. pose proof (Z.mod_pos_bound n d Hd) as Hb.
  set (q := (n / d)%Z) in *. set (r := (n mod d)%Z) in *.
  destruct (Z.compare_spec (2 * r) d) as [E|E|E];
    [destruct (Z.even q)|..]; nia.
Qed.

Lemma ulp_exp_nonneg N D : (0 <= ulp_exp N D)%Z.
Proof. unfold ulp_exp. lia. Qed.

Lemma ulp_exp_spec N D :
  (0 < D)%Z -> (0 < ulp_exp N D)%Z -> (2 ^ (ulp_exp N D + 52) * D <= Z.abs N)%Z.
Proof.
  intros HD. unfold ulp_exp.
  set (a := Z.log2 (Z.abs N)). set (b := Z.log2 D). set (t := (a - b)%Z).
  destruct ((0 <=? t)%Z && (2 ^ t * D <=? Z.abs N)%Z) eqn:E.
  - apply andb_prop in E as [_ E]. apply Z.leb_le in E. intros Hk.
    replace (Z.max 0 (t - 52) + 52)%Z with t by lia. exact E.
  - intros Hk. replace (Z.max 0 (t - 1 - 52) + 52)%Z with (t - 1)%Z by lia.
    assert (HN : (0 < Z.abs N)%Z).
    { destruct (Z.eq_dec (Z.abs N) 0%Z) as [H0|H0]; [|lia].
      unfold t, a in Hk. rewrite H0 in Hk. simpl in Hk.
      pose proof (Z.log2_nonneg D). lia. }
    destruct (Z.log2_spec (Z.abs N) HN) as [Ha _].
    destruct (Z.log2_spec D HD) as [_ Hb].
    fold a in Ha. fold b in Hb. pose proof (Z.log2_nonneg D). fold b in H.
    assert (Hpow : (2 ^ (t - 1) * 2 ^ Z.succ b = 2 ^ a)%Z).
    { rewrite <- Z.pow_add_r by lia. f_equal. unfold t. lia. }
    assert (0 < 2 ^ (t - 1))%Z by (apply Z.pow_pos_nonneg; lia).
    nia.
Qed.

Lemma fl_correct x :
  let N := (Qnum x * Z.pos emin_pow)%Z in
  let D := Z.pos (Qden x) in
  let k := ulp_exp N D in
  fl x == (round_half_even N (D * 2 ^ k) * 2 ^ k # emin_pow).
Proof. intros. unfold fl. apply Qred_correct. Qed.

Lemma emin_pow_succ : Z.pos (2 ^ 1075) = (2 * Z.pos emin_pow)%Z.
Proof. reflexivity. Qed.

Lemma fl_err x :
  Qabs (fl x - x) <= Qabs x * (1 # 2 ^ 53) + (1 # 2 ^ 1075).
Proof.
  rewrite (fl_correct x).
  destruct x as [n d]. cbn [Qnum Qden].
  set (P := emin_pow).
  set (k := ulp_exp (n * Z.pos P) (Z.pos d)).
  set (M := round_half_even (n * Z.pos P) (Z.pos d * 2 ^ k)).
  assert (Hk0 : (0 <= k)%Z) by apply ulp_exp_nonneg.
  assert (HK : (0 < 2 ^ k)%Z) by (apply Z.pow_pos_nonneg; lia).
  assert (HR : (2 * Z.abs (M * (Z.pos d * 2 ^ k) - n * Z.pos P) <= Z.pos d * 2 ^ k)%Z)
    by (apply round_half_even_spec; lia).
  assert (HU : k = 0%Z \/ (2 ^ (k + 52) * Z.pos d <= Z.abs (n * Z.pos P))%Z).
  { destruct (Z.eq_dec k 0%Z) as [->|Hne]; [left; reflexivity|right]. apply ulp_exp_spec; lia. }
  unfold Qle. cbn [Qnum Qden Qabs Qminus Qplus Qopp Qmult].
  rewrite !Pos2Z.inj_mul, emin_pow_succ. fold P.
  change (Z.pos (2 ^ 53)) with (2 * 2 ^ 52)%Z.
  set (A := Z.abs (M * 2 ^ k * Z.pos d + - n * Z.pos P)).
  assert (HA : (2 * A <= Z.pos d * 2 ^ k)%Z) by (unfold A; rewrite <- HR; apply Z.eq_le_incl; f_equal; f_equal; ring).
  rewrite Z.abs_mul in HU. change (Z.abs (Z.pos P)) with (Z.pos P) in HU.
  assert (HP : (0 < Z.pos P)%Z) by lia.
  assert (HE : (0 < 2 ^ 52)%Z) by lia.
  assert (Hn : (0 <= Z.abs n)%Z) by lia.
  destruct HU as [Hk|HU].
  - rewrite Hk, Z.pow_0_r, Z.mul_1_r in HA.
    assert (H1 : (2 * A * (Z.pos d * 2 ^ 52 * (2 * Z.pos P)) <=
                  Z.pos d * (Z.pos d * 2 ^ 52 * (2 * Z.pos P)))%Z)
      by (apply Z.mul_le_mono_nonneg_r; [lia|exact HA]).
    assert (H2 : (0 <= Z.abs n * 1 * (2 * Z.pos P) * (Z.pos P * Z.pos d))%Z) by lia.
    nia.
  - rewrite Z.pow_add_r in HU by lia.
    assert (H1 : (2 * A * 2 ^ 52 <= Z.pos d * 2 ^ k * 2 ^ 52)%Z)
      by (apply Z.mul_le_mono_nonneg_r; [lia|exact HA]).
    assert (H2 : (A * (2 * 2 ^ 52) <= Z.abs n * Z.pos P)%Z) by nia.
    assert (H3 : (A * (2 * 2 ^ 52) * (2 * Z.pos P * Z.pos d) <=
                  Z.abs n * Z.pos P * (2 * Z.pos P * Z.pos d))%Z)
      by (apply Z.mul_le_mono_nonneg_r; [lia|exact H2]).
    assert (H4 : (0 <= 1 * (Z.pos d * (2 * 2 ^ 52)) * (Z.pos P * Z.pos d))%Z) by lia.
    nia.
Qed.

Lemma fl_near y B :
  -B <= y <= B ->
  y - (B * (1 # 9007199254740992) + (1 # 100000000000000000000)) <= fl y /\
  fl y <= y + (B * (1 # 9007199254740992) + (1 # 100000000000000000000)).
Proof.
  intros Hy. pose proof (fl_err y) as H.
  change (1 # 2 ^ 53) with (1 # 9007199254740992) in H.
  assert (Heta : (1 # 2 ^ 1075) <= (1 # 100000000000000000000))
    by (apply Qle_bool_imp_le; vm_compute; reflexivity).
  assert (Hay : Qabs y <= B) by (apply Qabs_Qle_condition; lra).
  assert (Hm : Qabs y * (1 # 9007199254740992) <= B * (1 # 9007199254740992))
    by (apply Qmult_le_compat_r; [exact Hay|apply Qle_bool_imp_le; reflexivity]).
  apply Qabs_Qle_condition in H as [H1 H2]. split; lra.
Qed.

Lemma halfpix_range :
  (1 # 2400) + (3 # 10000000000) <= halfpix /\ halfpix <= (1 # 2400) + (4 # 10000000000).
Proof. split; apply Qle_bool_imp_le; vm_compute; reflexivity. Qed.

Lemma window_lo_spec x :
  -180 <= x <= 180 ->
  (1 # 2400) < x - window_lo x /\ x - window_lo x <= (1 # 1200) + (1 # 2400) + (1 # 1000000000) /\
  exists k : Z, - (1 # 1000000000000) <= window_lo x + halfpix - inject_Z k / 1200 /\
                window_lo x + halfpix - inject_Z k / 1200 <= 1 # 1000000000000.
Proof.
  intros Hx. unfold window_lo.
  destruct (fl_near (x * 1200) 216000) as [Hp1 Hp2]; [split; lra|].
  set (p := fl (x * 1200)) in *.
  pose proof (Qfloor_le p) as F1. pose proof (Qlt_floor p) as F2. rewrite inject_Z_plus in F2. change (inject_Z 1) with 1 in F2.
  set (F := inject_Z (Qfloor p)) in *.
  unfold Qdiv. change (/ 1200) with (1 # 1200).
  destruct (fl_near (F * (1 # 1200)) 181) as [Hq1 Hq2]; [split; lra|].
  set (q := fl (F * (1 # 1200))) in *.
  destruct halfpix_range as [H1 H2].
  destruct (fl_near (q - halfpix) 182) as [Hw1 Hw2]; [split; lra|].
  split; [lra|]. split; [lra|]. exists (Qfloor p). fold F. split; lra.
Qed.

Lemma window_hi_spec x :
  -180 <= x <= 180 ->
  (1 # 2400) < window_hi x - x /\ window_hi x - x <= (1 # 1200) + (1 # 2400) + (1 # 1000000000) /\
  exists k : Z, - (1 # 1000000000000) <= window_hi x - halfpix - inject_Z k / 1200 /\
                window_hi x - halfpix - inject_Z k / 1200 <= 1 # 1000000000000.
Proof.
  intros Hx. unfold window_hi.
  destruct (fl_near (x * 1200) 216000) as [Hp1 Hp2]; [split; lra|].
  set (p := fl (x * 1200)) in *.
  pose proof (Qle_ceiling p) as F1. pose proof (Qceiling_lt p) as F2. unfold Z.sub in F2. rewrite inject_Z_plus in F2. rewrite inject_Z_opp in F2. change (inject_Z 1) with 1 in F2.
  set (F := inject_Z (Qceiling p)) in *.
  unfold Qdiv. change (/ 1200) with (1 # 1200).
  destruct (fl_near (F * (1 # 1200)) 181) as [Hq1 Hq2]; [split; lra|].
  set (q := fl (F * (1 # 1200))) in *.
  destruct halfpix_range as [H1 H2].
  destruct (fl_near (q + halfpix) 182) as [Hw1 Hw2]; [split; lra|].
  split; [lra|]. split; [lra|]. exists (Qceiling p). fold F. split; lra.
Qed.

End FloatLemmas.

(* ------------------------------------------------------------------ *)
(** ** Lemmas on [split_catchment] *)

Lemma prepare_spec env req pr :
  prepare env req = Some pr ->
  grid_shape env (bounding_box pr) = (shape_m pr, shape_n pr) /\
  fdir pr = mask_grid (shape_m pr) (shape_n pr) (mymask pr) (read_flowdir env (bounding_box pr)) /\
  acc pr = mask_grid (shape_m pr) (shape_n pr) (mymask pr) (read_accum env (bounding_box pr)) /\
  numpixels pr = (if bSingleCatchment req then THRESHOLD_SINGLE env else THRESHOLD_MULTIPLE env) /\
  streams pr = threshold_grid (numpixels pr) (acc pr).
Proof.
  unfold prepare. destruct (grid_shape env _) as [m n] eqn:E.
  destruct (get_largest _) as [[p|ps]|]; try discriminate.
  intros H. injection H as <-. simpl. repeat split; done.
Qed.

Lemma split_catchment_events env req pr e :
  prepare env req = Some pr -> e ∈ snd (split_catchment env req) ->
  event_fdir e = fdir pr /\ event_acc e = acc pr.
Proof.
  intros Hp He. unfold split_catchment in He. rewrite Hp in He.
  destruct (snap_to_mask env _ _) as [[x y]|];
    [destruct (catchment env _ _ _ _); [destruct (result_polygon_of _ _)|]|];
    simpl in He; apply list_elem_of_In in He; simpl in He;
    intuition (subst; simpl; auto).
Qed.

Lemma split_catchment_after_snap env req pr lng0 lat0 :
  prepare env req = Some pr ->
  snap_to_mask env (streams pr) (lng req, lat req) = Some (lng0, lat0) ->
  split_catchment env req =
  (match catchment env (fdir pr) lng0 lat0 dirmap with
   | None => Returned None (Some lng0) (Some lat0)
   | Some cc =>
       match result_polygon_of env (polygonize env cc) with
       | None => Raised
       | Some g => Returned (Some g) (Some (fl (lat0 - halfpix))%Q) (Some (fl (lng0 + halfpix))%Q)
       end
   end,
   [ESnap (fdir pr) (acc pr) (streams pr) (lng req, lat req);
    ECatchment (fdir pr) (acc pr) lng0 lat0]).
Proof.
  intros Hp Hs. unfold split_catchment. rewrite Hp, Hs.
  destruct (catchment env _ _ _ _); [destruct (result_polygon_of _ _)|]; done.
Qed.

(* ================================================================== *)
(** * The claims *)

(** C1 (code_bug). When snapping succeeds and the trace raises, [split_catchment]
    returns [(None, lng_snap, lat_snap)]: longitude second and latitude third, the
    reverse of the [(result_polygon, lat_snap, lng_snap)] order of its success path
    and of its docstring. *)
Theorem split_catchment_trace_error_returns_lng_first env req pr lng0 lat0 :
  prepare env req = Some pr ->
  snap_to_mask env (streams pr) (lng req, lat req) = Some (lng0, lat0) ->
  catchment env (fdir pr) lng0 lat0 dirmap = None ->
  fst (split_catchment env req) = Returned None (Some lng0) (Some lat0).
Proof.
  intros Hp Hs Hc. rewrite (split_catchment_after_snap env req pr lng0 lat0 Hp Hs), Hc.
  done.
Qed.

(** C2. Every raster handed to an external call ([snap_to_mask], [catchment]) is
    the flow-direction or accumulation raster with value 0 at each cell where the
    rasterized mask is false. *)
Theorem split_catchment_masks_before_snap_and_trace env req pr :
  prepare env req = Some pr ->
  shaped (shape_m pr) (shape_n pr) (mymask pr) ->
  shaped (shape_m pr) (shape_n pr) (read_flowdir env (bounding_box pr)) ->
  shaped (shape_m pr) (shape_n pr) (read_accum env (bounding_box pr)) ->
  forall e, e ∈ snd (split_catchment env req) ->
  forall c, c.1 < shape_m pr -> c.2 < shape_n pr -> get (mymask pr) c = Some false ->
  get (event_fdir e) c = Some 0%Z /\ get (event_acc e) c = Some 0%Z.
Proof.
  intros Hp Hm Hf Ha e He c Hi Hj Hc.
  destruct (split_catchment_events env req pr e Hp He) as [-> ->].
  destruct (prepare_spec env req pr Hp) as (_ & -> & -> & _).
  split; apply mask_grid_zero; done.
Qed.

(** C4. The stream grid handed to [snap_to_mask] is [acc > t] on the masked
    accumulation raster, with [t = THRESHOLD_SINGLE] for a single-catchment request
    and [t = THRESHOLD_MULTIPLE] otherwise: a cell is a stream cell exactly when its
    masked accumulation is strictly greater than [t]. *)
Theorem split_catchment_stream_grid env req fd ac s xy :
  ESnap fd ac s xy ∈ snd (split_catchment env req) ->
  exists pr, prepare env req = Some pr /\ ac = acc pr /\
    ac = mask_grid (shape_m pr) (shape_n pr) (mymask pr) (read_accum env (bounding_box pr)) /\
    let t := if bSingleCatchment req then THRESHOLD_SINGLE env else THRESHOLD_MULTIPLE env in
    s = threshold_grid t ac /\
    forall c, get s c = Some true <-> exists a, get ac c = Some a /\ (t < a)%Z.
Proof.
  intros He. destruct (prepare env req) as [pr|] eqn:Hp.
  2:{ unfold split_catchment in He. rewrite Hp in He. by apply not_elem_of_nil in He. }
  exists pr. split; [done|].
  assert (Hs : s = streams pr /\ ac = acc pr).
  { unfold split_catchment in He. rewrite Hp in He.
    destruct (snap_to_mask env _ _) as [[x y]|];
      [destruct (catchment env _ _ _ _); [destruct (result_polygon_of _ _)|]|];
      simpl in He; apply list_elem_of_In in He; simpl in He;
      intuition congruence. }
  destruct Hs as [-> ->].
  destruct (prepare_spec env req pr Hp) as (_ & _ & Hacc & Ht & Hstr).
  split; [done|]. split; [done|]. simpl. rewrite Hstr, Ht. split; [done|].
  intros c. rewrite get_threshold_grid. destruct (get (acc pr) c) as [a|]; simpl.
  - split.
    + intros H. injection H as H. exists a. split; [done|]. by apply Z.ltb_lt.
    + intros (a' & Ha & Hlt). injection Ha as <-. f_equal. by apply Z.ltb_lt.
  - split; [done|]. by intros (a' & ? & _).
Qed.

(** C5. When snapping fails ([snap_to_mask] raises on the stream grid), the result
    is [(None, None, None)], and the only external call made is that one snap:
    no second snap with another threshold and no trace. *)
Theorem split_catchment_snap_failure env req pr :
  prepare env req = Some pr ->
  snap_to_mask env (streams pr) (lng req, lat req) = None ->
  split_catchment env req =
  (Returned None None None, [ESnap (fdir pr) (acc pr) (streams pr) (lng req, lat req)]).
Proof. intros Hp Hs. unfold split_catchment. by rewrite Hp, Hs. Qed.

(** C6. [get_largest] returns a single polygon unchanged and, for a non-empty
    MultiPolygon, a part of largest area; [split_catchment] applies it to a
    MultiPolygon produced by [unary_union] of several shapes and takes the single
    shape as it is; for parts of areas 100 and 2 it returns the 100-unit part. *)
Theorem get_largest_keeps_largest_part :
  (forall p, get_largest (GPolygon p) = Some (GPolygon p)) /\
  (forall ps, ps <> [] ->
     exists p, get_largest (GMultiPolygon ps) = Some (GPolygon p) /\ p ∈ ps /\
               forall q, q ∈ ps -> (area q <= area p)%Q) /\
  (forall env shapes polys ps,
     mapM shape_to_polygon shapes = Some polys -> 1 < length shapes ->
     unary_union env polys = GMultiPolygon ps ->
     result_polygon_of env shapes = get_largest (GMultiPolygon ps)) /\
  (forall env shape p,
     shape_to_polygon shape = Some p -> result_polygon_of env [shape] = Some (GPolygon p)) /\
  (area square100 == 100)%Q /\ (area square2 == 2)%Q /\
  get_largest (GMultiPolygon [square100; square2]) = Some (GPolygon square100) /\
  get_largest (GMultiPolygon [square2; square100]) = Some (GPolygon square100).
Proof.
  split; [done|]. split; [exact get_largest_multi|]. split.
  { intros env shapes polys ps Hm Hl Hu. unfold result_polygon_of. rewrite Hm. simpl.
    destruct (Nat.ltb_spec 1 (length shapes)); [|lia]. by rewrite Hu. }
  split.
  { intros env shape p Hs. unfold result_polygon_of. simpl. by rewrite Hs. }
  repeat split; vm_compute; reflexivity.
Qed.

Lemma get_largest_keeps_largest_part_witness :
  [square2; square100] <> [] /\
  exists p, get_largest (GMultiPolygon [square2; square100]) = Some (GPolygon p) /\
            p ∈ [square2; square100] /\
            forall q, q ∈ [square2; square100] -> (area q <= area p)%Q.
Proof.
  split; [discriminate|].
  apply (proj1 (proj2 get_largest_keeps_largest_part)). discriminate.
Defined.




(** C7 (counterexample). On the demo run the raw snap is the pair of floats
    nearest to [(3/2400, -3/2400)], and the returned latitude and longitude are not
    those moved by half of a 1/1200-degree pixel: the code adds and subtracts the
    float [halfpix] (nearest to 0.000416667) in binary64. *)
Lemma split_catchment_nudge_is_not_half_pixel :
  snap_to_mask env_ok (streams (prepared_of env_ok demo_req)) (lng demo_req, lat demo_req)
    = Some (fl (3 # 2400), fl (-3 # 2400))%Q /\
  exists g a b, fst (split_catchment env_ok demo_req) = Returned (Some g) (Some a) (Some b) /\
    ~ (a == (fl (-3 # 2400)) - 1 / 1200 / 2)%Q /\ ~ (b == (fl (3 # 2400)) + 1 / 1200 / 2)%Q.
Proof.
  split; [vm_compute; reflexivity|]. do 3 eexists. split; [vm_compute; reflexivity|].
  split; intros H; vm_compute in H; discriminate H.
Qed.

(** C7 (amended). On the success path the returned latitude is the raw snapped
    latitude minus [halfpix] and the returned longitude the raw snapped longitude
    plus [halfpix], each rounded to binary64. *)
Theorem split_catchment_success_nudge env req pr lng0 lat0 g a b :
  prepare env req = Some pr ->
  snap_to_mask env (streams pr) (lng req, lat req) = Some (lng0, lat0) ->
  fst (split_catchment env req) = Returned (Some g) a b ->
  a = Some (fl (lat0 - halfpix))%Q /\ b = Some (fl (lng0 + halfpix))%Q.
Proof.
  intros Hp Hs. rewrite (split_catchment_after_snap env req pr lng0 lat0 Hp Hs). simpl.
  destruct (catchment env _ _ _ _); [|discriminate].
  destruct (result_polygon_of _ _); [|discriminate].
  intros H. injection H as _ <- <-. done.
Qed.

(** C8 (counterexample). With a negative threshold a cell outside the mask (masked
    accumulation 0 > -1) is a stream cell; seeded there the trace returns that cell,
    which is not in the mask. *)
Lemma upstream_trace_not_in_mask_negative_threshold :
  ~ (forall env req pr seed cells,
       prepare env req = Some pr ->
       shaped (shape_m pr) (shape_n pr) (mymask pr) ->
       shaped (shape_m pr) (shape_n pr) (read_flowdir env (bounding_box pr)) ->
       shaped (shape_m pr) (shape_n pr) (read_accum env (bounding_box pr)) ->
       get (streams pr) seed = Some true ->
       upstream_trace (shape_m pr) (shape_n pr) (fdir pr) seed = Some cells ->
       seed ∈ cells /\ forall c, c ∈ cells -> get (mymask pr) c = Some true).
Proof.
  intros H.
  set (env := demo_env (-1) (-1) [[false]] [[0%Z]] [[0%Z]] None).
  destruct (H env demo_req (prepared_of env demo_req) (0, 0)%nat [(0, 0)%nat])
    as [_ Hs]; try (vm_compute; reflexivity);
    try (split; [vm_compute; reflexivity|vm_compute; repeat constructor]).
  specialize (Hs (0, 0)%nat). vm_compute in Hs. discriminate Hs. by left.
Qed.

(** C8 (amended). For a non-negative threshold, a trace seeded at a stream cell of
    the masked accumulation and run on the masked flow directions returns, when it
    does not fail, a cell set that contains the seed and lies inside the mask. *)
Theorem upstream_trace_in_mask env req pr seed cells :
  prepare env req = Some pr ->
  shaped (shape_m pr) (shape_n pr) (mymask pr) ->
  shaped (shape_m pr) (shape_n pr) (read_flowdir env (bounding_box pr)) ->
  shaped (shape_m pr) (shape_n pr) (read_accum env (bounding_box pr)) ->
  (0 <= numpixels pr)%Z ->
  get (streams pr) seed = Some true ->
  upstream_trace (shape_m pr) (shape_n pr) (fdir pr) seed = Some cells ->
  seed ∈ cells /\ forall c, c ∈ cells -> get (mymask pr) c = Some true.
Proof.
  intros Hp Hm Hf Ha Ht Hseed Htr.
  destruct (prepare_spec env req pr Hp) as (_ & Hfd & Hac & _ & Hst).
  split.
  - apply (trace_loop_visited _ _ _ _ _ _ _ Htr). by left.
  - apply Forall_forall.
    apply (trace_loop_Forall (fun c => get (mymask pr) c = Some true) (shape_m pr) (shape_n pr)
             (fdir pr) (S (shape_m pr * shape_n pr)) [seed] [seed] cells); [| |exact Htr].
    + intros v u Hd. apply downstream_Some in Hd as (code & o & Ec & Eo).
      rewrite Hfd in Ec. eapply mask_grid_nonzero; [exact Hm|exact Hf|exact Ec|].
      by eapply code_offset_nonzero.
    + constructor; [|constructor].
      rewrite Hst, get_threshold_grid in Hseed.
      destruct (get (acc pr) seed) as [a|] eqn:Ea; [|discriminate]. simpl in Hseed.
      injection Hseed as Hlt. apply Z.ltb_lt in Hlt. rewrite Hac in Ea.
      eapply mask_grid_nonzero; [exact Hm|exact Ha|exact Ea|]. lia.
Qed.

(* C9 concerns call-stack use, not results; it has no statement here. *)

(** C10 (counterexample). For one snap, the demo run whose trace raises returns the
    raw snapped longitude and latitude (the floats nearest to 3/2400 and -3/2400),
    and the demo run whose trace succeeds returns values that are not these moved
    by half of a 1/1200-degree pixel: the code moves them by the float [halfpix]
    (nearest to 0.000416667) in binary64. *)
Lemma split_catchment_paths_not_half_pixel_apart :
  fst (split_catchment env_fail demo_req) = Returned None (Some (fl (3 # 2400))) (Some (fl (-3 # 2400))) /\
  exists g a b, fst (split_catchment env_ok demo_req) = Returned (Some g) (Some a) (Some b) /\
    ~ (a == (fl (-3 # 2400)) - 1 / 1200 / 2)%Q /\ ~ (b == (fl (3 # 2400)) + 1 / 1200 / 2)%Q.
Proof.
  split; [vm_compute; reflexivity|]. do 3 eexists. split; [vm_compute; reflexivity|].
  split; intros H; vm_compute in H; discriminate H.
Qed.

(** C10 (amended). For a given snap [(lng0, lat0)]: when the trace raises, the
    returned coordinates are the raw [lng0] and [lat0]; when it succeeds, they are
    [lat0 - halfpix] and [lng0 + halfpix], each rounded to binary64. *)
Theorem split_catchment_nudge_only_on_success env req pr lng0 lat0 :
  prepare env req = Some pr ->
  snap_to_mask env (streams pr) (lng req, lat req) = Some (lng0, lat0) ->
  (catchment env (fdir pr) lng0 lat0 dirmap = None ->
   fst (split_catchment env req) = Returned None (Some lng0) (Some lat0)) /\
  (forall g a b, fst (split_catchment env req) = Returned (Some g) a b ->
   a = Some (fl (lat0 - halfpix))%Q /\ b = Some (fl (lng0 + halfpix))%Q).
Proof.
  intros Hp Hs. rewrite (split_catchment_after_snap env req pr lng0 lat0 Hp Hs). simpl.
  split.
  - intros ->. done.
  - intros g a b. destruct (catchment env _ _ _ _); [|discriminate].
    destruct (result_polygon_of _ _); [|discriminate].
    intros H. injection H as _ <- <-. done.
Qed.

(* ================================================================== *)
(** * The theorems at concrete inputs *)



Lemma split_catchment_trace_error_returns_lng_first_witness :
  let pr := prepared_of env_fail demo_req in
  prepare env_fail demo_req = Some pr /\
  snap_to_mask env_fail (streams pr) (lng demo_req, lat demo_req) = Some (fl (3 # 2400), fl (-3 # 2400))%Q /\
  catchment env_fail (fdir pr) (fl (3 # 2400)) (fl (-3 # 2400)) dirmap = None /\
  fst (split_catchment env_fail demo_req) = Returned None (Some (fl (3 # 2400))) (Some (fl (-3 # 2400))).
Proof.
  intros pr. assert (Hp : prepare env_fail demo_req = Some pr) by (vm_compute; reflexivity).
  assert (Hs : snap_to_mask env_fail (streams pr) (lng demo_req, lat demo_req)
               = Some (fl (3 # 2400), fl (-3 # 2400))%Q) by (vm_compute; reflexivity).
  assert (Hc : catchment env_fail (fdir pr) (fl (3 # 2400)) (fl (-3 # 2400)) dirmap = None)
    by reflexivity.
  split; [exact Hp|]. split; [exact Hs|]. split; [exact Hc|].
  exact (split_catchment_trace_error_returns_lng_first env_fail demo_req pr _ _ Hp Hs Hc).
Defined.

Lemma split_catchment_masks_before_snap_and_trace_witness :
  let pr := prepared_of env_ok demo_req in
  let e := ESnap (fdir pr) (acc pr) (streams pr) (lng demo_req, lat demo_req) in
  prepare env_ok demo_req = Some pr /\
  shaped (shape_m pr) (shape_n pr) (mymask pr) /\
  shaped (shape_m pr) (shape_n pr) (read_flowdir env_ok (bounding_box pr)) /\
  shaped (shape_m pr) (shape_n pr) (read_accum env_ok (bounding_box pr)) /\
  e ∈ snd (split_catchment env_ok demo_req) /\
  (0 < shape_m pr)%nat /\ (1 < shape_n pr)%nat /\ get (mymask pr) (0, 1)%nat = Some false /\
  get (event_fdir e) (0, 1)%nat = Some 0%Z /\ get (event_acc e) (0, 1)%nat = Some 0%Z.
Proof.
  intros pr e.
  assert (Hp : prepare env_ok demo_req = Some pr) by (vm_compute; reflexivity).
  assert (Hm : shaped (shape_m pr) (shape_n pr) (mymask pr))
    by (split; [vm_compute; reflexivity|vm_compute; repeat constructor]).
  assert (Hf : shaped (shape_m pr) (shape_n pr) (read_flowdir env_ok (bounding_box pr)))
    by (split; [vm_compute; reflexivity|vm_compute; repeat constructor]).
  assert (Ha : shaped (shape_m pr) (shape_n pr) (read_accum env_ok (bounding_box pr)))
    by (split; [vm_compute; reflexivity|vm_compute; repeat constructor]).
  assert (He : e ∈ snd (split_catchment env_ok demo_req))
    by (apply list_elem_of_In; vm_compute; left; reflexivity).
  assert (Hi : (0 < shape_m pr)%nat) by (vm_compute; lia).
  assert (Hj : (1 < shape_n pr)%nat) by (vm_compute; lia).
  assert (Hc : get (mymask pr) (0, 1)%nat = Some false) by (vm_compute; reflexivity).
  do 8 (split; [assumption|]).
  exact (split_catchment_masks_before_snap_and_trace env_ok demo_req pr Hp Hm Hf Ha e He
           (0, 1)%nat Hi Hj Hc).
Defined.

Lemma split_catchment_stream_grid_witness :
  let pr := prepared_of env_fail demo_req in
  ESnap (fdir pr) (acc pr) (streams pr) (lng demo_req, lat demo_req)
    ∈ snd (split_catchment env_fail demo_req) /\
  exists pr', prepare env_fail demo_req = Some pr' /\ acc pr = acc pr' /\
    acc pr = mask_grid (shape_m pr') (shape_n pr') (mymask pr')
               (read_accum env_fail (bounding_box pr')) /\
    let t := if bSingleCatchment demo_req then THRESHOLD_SINGLE env_fail
             else THRESHOLD_MULTIPLE env_fail in
    streams pr = threshold_grid t (acc pr) /\
    forall c, get (streams pr) c = Some true <-> exists a, get (acc pr) c = Some a /\ (t < a)%Z.
Proof.
  intros pr.
  assert (He : ESnap (fdir pr) (acc pr) (streams pr) (lng demo_req, lat demo_req)
                 ∈ snd (split_catchment env_fail demo_req))
    by (apply list_elem_of_In; vm_compute; left; reflexivity).
  split; [exact He|].
  exact (split_catchment_stream_grid env_fail demo_req _ _ _ _ He).
Defined.

Definition env_no_stream : Env := demo_env 100 100 demo_mask demo_fdir demo_acc None.

Lemma split_catchment_snap_failure_witness :
  let pr := prepared_of env_no_stream demo_req in
  prepare env_no_stream demo_req = Some pr /\
  snap_to_mask env_no_stream (streams pr) (lng demo_req, lat demo_req) = None /\
  split_catchment env_no_stream demo_req =
  (Returned None None None, [ESnap (fdir pr) (acc pr) (streams pr) (lng demo_req, lat demo_req)]).
Proof.
  intros pr. assert (Hp : prepare env_no_stream demo_req = Some pr) by (vm_compute; reflexivity).
  assert (Hs : snap_to_mask env_no_stream (streams pr) (lng demo_req, lat demo_req) = None)
    by (vm_compute; reflexivity).
  split; [exact Hp|]. split; [exact Hs|].
  exact (split_catchment_snap_failure env_no_stream demo_req pr Hp Hs).
Defined.

Lemma split_catchment_success_nudge_witness :
  let pr := prepared_of env_ok demo_req in
  prepare env_ok demo_req = Some pr /\
  snap_to_mask env_ok (streams pr) (lng demo_req, lat demo_req) = Some (fl (3 # 2400), fl (-3 # 2400))%Q /\
  fst (split_catchment env_ok demo_req) =
    Returned (Some (GPolygon (Polygon unit_square [])))
             (Some (fl (fl (-3 # 2400) - halfpix))%Q) (Some (fl (fl (3 # 2400) + halfpix))%Q) /\
  Some (fl (fl (-3 # 2400) - halfpix))%Q = Some (fl (fl (-3 # 2400) - halfpix))%Q /\
  Some (fl (fl (3 # 2400) + halfpix))%Q = Some (fl (fl (3 # 2400) + halfpix))%Q.
Proof.
  intros pr. assert (Hp : prepare env_ok demo_req = Some pr) by (vm_compute; reflexivity).
  assert (Hs : snap_to_mask env_ok (streams pr) (lng demo_req, lat demo_req)
               = Some (fl (3 # 2400), fl (-3 # 2400))%Q) by (vm_compute; reflexivity).
  assert (Hr : fst (split_catchment env_ok demo_req) =
    Returned (Some (GPolygon (Polygon unit_square [])))
             (Some (fl (fl (-3 # 2400) - halfpix))%Q) (Some (fl (fl (3 # 2400) + halfpix))%Q))
    by (vm_compute; reflexivity).
  split; [exact Hp|]. split; [exact Hs|]. split; [exact Hr|].
  exact (split_catchment_success_nudge env_ok demo_req pr _ _ _ _ _ Hp Hs Hr).
Defined.

Lemma upstream_trace_in_mask_witness :
  let pr := prepared_of env_ok demo_req in
  let cells := [(1, 1); (1, 0); (0, 0)]%nat in
  prepare env_ok demo_req = Some pr /\
  shaped (shape_m pr) (shape_n pr) (mymask pr) /\
  shaped (shape_m pr) (shape_n pr) (read_flowdir env_ok (bounding_box pr)) /\
  shaped (shape_m pr) (shape_n pr) (read_accum env_ok (bounding_box pr)) /\
  (0 <= numpixels pr)%Z /\
  get (streams pr) (1, 1)%nat = Some true /\
  upstream_trace (shape_m pr) (shape_n pr) (fdir pr) (1, 1)%nat = Some cells /\
  (1, 1)%nat ∈ cells /\ forall c, c ∈ cells -> get (mymask pr) c = Some true.
Proof.
  intros pr cells.
  assert (Hp : prepare env_ok demo_req = Some pr) by (vm_compute; reflexivity).
  assert (Hm : shaped (shape_m pr) (shape_n pr) (mymask pr))
    by (split; [vm_compute; reflexivity|vm_compute; repeat constructor]).
  assert (Hf : shaped (shape_m pr) (shape_n pr) (read_flowdir env_ok (bounding_box pr)))
    by (split; [vm_compute; reflexivity|vm_compute; repeat constructor]).
  assert (Ha : shaped (shape_m pr) (shape_n pr) (read_accum env_ok (bounding_box pr)))
    by (split; [vm_compute; reflexivity|vm_compute; repeat constructor]).
  assert (Ht : (0 <= numpixels pr)%Z) by (vm_compute; discriminate).
  assert (Hs : get (streams pr) (1, 1)%nat = Some true) by (vm_compute; reflexivity).
  assert (Htr : upstream_trace (shape_m pr) (shape_n pr) (fdir pr) (1, 1)%nat = Some cells)
    by (vm_compute; reflexivity).
  do 7 (split; [assumption|]).
  exact (upstream_trace_in_mask env_ok demo_req pr _ _ Hp Hm Hf Ha Ht Hs Htr).
Defined.

Lemma split_catchment_nudge_only_on_success_witness :
  let pr := prepared_of env_fail demo_req in
  prepare env_fail demo_req = Some pr /\
  snap_to_mask env_fail (streams pr) (lng demo_req, lat demo_req) = Some (fl (3 # 2400), fl (-3 # 2400))%Q /\
  (catchment env_fail (fdir pr) (fl (3 # 2400)) (fl (-3 # 2400)) dirmap = None ->
   fst (split_catchment env_fail demo_req) = Returned None (Some (fl (3 # 2400))) (Some (fl (-3 # 2400)))) /\
  (forall g a b, fst (split_catchment env_fail demo_req) = Returned (Some g) a b ->
   a = Some (fl (fl (-3 # 2400) - halfpix))%Q /\ b = Some (fl (fl (3 # 2400) + halfpix))%Q).
Proof.
  intros pr. assert (Hp : prepare env_fail demo_req = Some pr) by (vm_compute; reflexivity).
  assert (Hs : snap_to_mask env_fail (streams pr) (lng demo_req, lat demo_req)
               = Some (fl (3 # 2400), fl (-3 # 2400))%Q) by (vm_compute; reflexivity).
  split; [exact Hp|]. split; [exact Hs|].
  exact (split_catchment_nudge_only_on_success env_fail demo_req pr _ _ Hp Hs).
Defined.

(* ================================================================== *)
(** * Further properties of the code *)

(* ------------------------------------------------------------------ *)
(** ** Duplicates *)

Section DuplicateProofs.
Context {A : Type} `{EqDecision A}.

Lemma remove_dups_length_le (l : list A) : length (remove_dups l) <= length l.
Proof. induction l as [|x l IH]; simpl; [lia|]. case_decide; simpl; lia. Qed.

Lemma set_len_NoDup (l : list A) : set_len l = length l <-> NoDup l.
Proof.
  unfold set_len. induction l as [|x l IH]; simpl.
  - split; [constructor|done].
  - case_decide as Hx.
    + pose proof (remove_dups_length_le l). split; [lia|].
      intros Hn. apply NoDup_cons in Hn as [Hn _]. done.
    + simpl. rewrite NoDup_cons. split.
      * intros Heq. split; [done|]. apply IH. lia.
      * intros [_ Hn]. f_equal. by apply IH.
Qed.

Lemma occurrences_nil (x : A) : occurrences x [] = 0.
Proof. done. Qed.

Lemma occurrences_cons x y (l : list A) :
  occurrences x (y :: l) = (if decide (y = x) then 1 else 0) + occurrences x l.
Proof. unfold occurrences. rewrite filter_cons. case_decide; done. Qed.

Lemma occurrences_app x (l1 l2 : list A) :
  occurrences x (l1 ++ l2) = occurrences x l1 + occurrences x l2.
Proof. unfold occurrences. by rewrite filter_app, length_app. Qed.

Lemma occurrences_pos x (l : list A) : x ∈ l <-> 0 < occurrences x l.
Proof.
  induction l as [|y l IH].
  - rewrite occurrences_nil. split; [by intros ?%not_elem_of_nil|lia].
  - rewrite occurrences_cons, elem_of_cons, IH. case_decide; naive_solver lia.
Qed.

Lemma NoDup_occurrences (l : list A) : NoDup l <-> forall x, occurrences x l <= 1.
Proof.
  induction l as [|y l IH].
  - split; [intros _ x; rewrite occurrences_nil; lia|constructor].
  - rewrite NoDup_cons, IH. split.
    + intros [Hy Hl] x. rewrite occurrences_cons. case_decide as E; [subst x|by apply Hl].
      assert (occurrences y l = 0); [|lia].
      destruct (occurrences y l) eqn:Eo; [done|]. exfalso. apply Hy, occurrences_pos. lia.
    + intros Hx. split.
      * rewrite occurrences_pos. specialize (Hx y). rewrite occurrences_cons in Hx.
        case_decide; [lia|done].
      * intros x. specialize (Hx x). rewrite occurrences_cons in Hx. lia.
Qed.

Lemma elem_of_set_add x z (s : list A) : z ∈ set_add x s <-> z = x \/ z ∈ s.
Proof.
  unfold set_add. case_decide; [naive_solver|].
  rewrite elem_of_app, list_elem_of_singleton. naive_solver.
Qed.

Lemma find_repeated_fold (p l : list A) seen dups :
  (forall x, x ∈ seen <-> x ∈ p) -> (forall x, x ∈ dups <-> 2 <= occurrences x p) ->
  forall x, x ∈ snd (fold_left find_repeated_step l (seen, dups)) <->
            2 <= occurrences x (p ++ l).
Proof.
  revert p seen dups. induction l as [|y l IH]; intros p seen dups Hs Hd x; cbn [fold_left].
  - by rewrite app_nil_r.
  - replace (p ++ y :: l) with ((p ++ [y]) ++ l) by by rewrite <- app_assoc.
    unfold find_repeated_step at 2. destruct (decide (y ∈ seen)) as [Hy|Hy];
      apply IH; intros z; rewrite ?elem_of_set_add, ?Hs, ?Hd, ?occurrences_app,
      ?occurrences_cons, ?occurrences_nil, ?elem_of_app, ?list_elem_of_singleton.
    + naive_solver.
    + apply Hs, occurrences_pos in Hy. case_decide; naive_solver lia.
    + naive_solver.
    + assert (occurrences y p = 0).
      { destruct (occurrences y p) eqn:E; [done|]. exfalso. apply Hy, Hs, occurrences_pos. lia. }
      case_decide; [subst z|]; split; intros; lia.
Qed.

Lemma find_repeated_elements_members (lst : list A) x :
  x ∈ find_repeated_elements lst <-> 2 <= occurrences x lst.
Proof.
  unfold find_repeated_elements. apply (find_repeated_fold [] lst [] []).
  - done.
  - intros z. rewrite occurrences_nil. split; [by intros ?%not_elem_of_nil|lia].
Qed.

End DuplicateProofs.

(** X1. [has_unique_elements lst] is [True] exactly when no item of [lst] occurs twice. *)
Theorem has_unique_elements_iff_NoDup {A} `{EqDecision A} (lst : list A) :
  has_unique_elements lst = true <-> NoDup lst.
Proof.
  unfold has_unique_elements. rewrite Nat.eqb_eq, <- set_len_NoDup. split; intros; lia.
Qed.

(** X2. An item is in [find_repeated_elements lst] exactly when it occurs at least
    twice in [lst]. *)
Theorem find_repeated_elements_iff_repeated {A} `{EqDecision A} (lst : list A) x :
  x ∈ find_repeated_elements lst <-> 2 <= occurrences x lst.
Proof. apply find_repeated_elements_members. Qed.

(** X3. [find_repeated_elements lst] is empty exactly when [has_unique_elements lst]
    holds: the two functions agree on whether a list has duplicates. *)
Theorem find_repeated_elements_empty_iff_unique {A} `{EqDecision A} (lst : list A) :
  find_repeated_elements lst = [] <-> has_unique_elements lst = true.
Proof.
  unfold has_unique_elements. rewrite Nat.eqb_eq.
  transitivity (NoDup lst); [|rewrite <- set_len_NoDup; split; intros; lia].
  rewrite NoDup_occurrences. split.
  - intros He x. destruct (decide (occurrences x lst <= 1)) as [|Hx]; [done|].
    exfalso. assert (Hin : x ∈ find_repeated_elements lst)
      by (apply find_repeated_elements_members; lia).
    rewrite He in Hin. by apply not_elem_of_nil in Hin.
  - intros Hx. apply elem_of_nil_inv. intros x Hin.
    apply find_repeated_elements_members in Hin. specialize (Hx x). lia.
Qed.

(* ------------------------------------------------------------------ *)
(** ** Validation *)

Lemma py_lt_spec x y : py_lt x y = true <-> (x < y)%Q.
Proof.
  unfold py_lt. rewrite negb_true_iff. split.
  - intros E. apply Qnot_le_lt. intros Hle. apply Qle_bool_iff in Hle. congruence.
  - intros Hlt. destruct (Qle_bool y x) eqn:E; [|done].
    apply Qle_bool_iff in E. exfalso. by apply (Qlt_not_le x y).
Qed.

Lemma forallb_Forall {B} (f : B -> bool) (l : list B) :
  forallb f l = true -> Forall (fun x => f x = true) l.
Proof. rewrite forallb_forall, Forall_forall. intros H x Hx. by apply H, list_elem_of_In. Qed.

Lemma existsb_false_Forall {B} (f : B -> bool) (l : list B) :
  existsb f l = false -> Forall (fun x => f x = false) l.
Proof.
  induction l as [|x l IH]; simpl; [by constructor|].
  rewrite orb_false_iff. intros [Hx Hl]. constructor; auto.
Qed.

(** Two messages that differ in their first character. *)
Ltac msg_neq :=
  let H := fresh in
  intros H;
  apply (f_equal (fun v => match v with RaisesValueError m => String.substring 0 1 m
                                        | ReturnsTrue => "" end)) in H;
  vm_compute in H; discriminate H.

(** What a [True] answer of [validate] guarantees, with the table it leaves. *)
Lemma validate_true_inv t :
  (validate t).1 = ReturnsTrue ->
  Forall (fun c => c ∈ columns t) required_cols /\
  (exists lats lngs, col_lat t = Float64 lats /\ col_lng t = Float64 lngs /\
     Forall (fun lat => -60 < lat /\ lat < 85)%Q lats /\
     Forall (fun lng => -180 < lng /\ lng < 180)%Q lngs) /\
  length (remove_dups (col_id t)) = length (col_id t) /\
  Forall (fun v => py_str v <> "" /\ py_str v <> "0") (col_id t) /\
  Forall (fun o => PStr (py_str o) ∈ col_id t) (col_outlet_id t) /\
  (validate t).2 = outlet_id_astype_str (id_astype_str t).
Proof.
  intros H. unfold validate in *.
  destruct (List.find _ required_cols) eqn:Ef; [discriminate|].
  destruct (set_len (col_id t) =? length (col_id t)) eqn:Eu; [|discriminate]. simpl in H |- *.
  destruct (col_lat t) as [lats|] eqn:Ela; [|discriminate].
  destruct (col_lng t) as [lngs|] eqn:Eln; [|discriminate].
  destruct (forallb (fun lat => py_lt (-60) lat) lats) eqn:E1; [|discriminate].
  destruct (forallb (fun lat => py_lt lat 85) lats) eqn:E2; [|discriminate].
  destruct (forallb (fun lng => py_lt (-180) lng) lngs) eqn:E3; [|discriminate].
  destruct (forallb (fun lng => py_lt lng 180) lngs) eqn:E4; [|discriminate].
  destruct (forallb (fun wid => Nat.ltb 0 (String.length (py_str wid))) (col_id t)) eqn:E5;
    [|discriminate].
  simpl in H |- *.
  destruct (existsb _ _) eqn:E6; [discriminate|].
  destruct (has_unique_elements (col_id t)) eqn:E7; [|discriminate]. simpl in H |- *.
  destruct (forallb (fun o => bool_decide (o ∈ col_id t)) _) eqn:E8; [|discriminate].
  apply Nat.eqb_eq in Eu.
  apply forallb_Forall in E1, E2, E3, E4, E5, E8. apply existsb_false_Forall in E6.
  split; [|split; [|split; [done|split; [|split]]]].
  - apply Forall_forall. intros c Hc. pose proof (find_none _ _ Ef c) as Hn.
    apply list_elem_of_In in Hc. specialize (Hn Hc). apply negb_false_iff in Hn.
    by apply bool_decide_eq_true in Hn.
  - exists lats, lngs. do 2 (split; [done|]).
    split; apply Forall_forall; intros x Hx; rewrite Forall_forall in E1, E2, E3, E4;
      [specialize (E1 x Hx); specialize (E2 x Hx)|specialize (E3 x Hx); specialize (E4 x Hx)];
      rewrite py_lt_spec in *; done.
  - rewrite Forall_fmap in E6. apply Forall_forall. intros v Hv.
    rewrite Forall_forall in E5, E6. specialize (E5 v Hv). specialize (E6 v Hv). simpl in E6.
    apply Nat.ltb_lt in E5. split.
    + intros He. rewrite He in E5. simpl in E5. lia.
    + intros Hz. rewrite Hz in E6. by rewrite bool_decide_eq_true_2 in E6.
  - rewrite Forall_fmap in E8. apply (Forall_impl _ _ _ E8). intros o Ho. simpl in Ho.
    by apply bool_decide_eq_true in Ho.
  - done.
Qed.

(** X4. When [validate] returns [True], all four required columns are present,
    [lat] and [lng] are [float64] with every latitude in (-60, 85) and every
    longitude in (-180, 180), the ids are pairwise distinct, none is empty or
    ["0"] as a string, every [outlet_id] (as a string) is one of the ids, and
    the caller's table has been left with its [id] and [outlet_id] columns
    turned into strings. *)
Theorem validate_true_guarantees t :
  (validate t).1 = ReturnsTrue ->
  Forall (fun c => c ∈ columns t) required_cols /\
  (exists lats lngs, col_lat t = Float64 lats /\ col_lng t = Float64 lngs /\
     Forall (fun lat => -60 < lat /\ lat < 85)%Q lats /\
     Forall (fun lng => -180 < lng /\ lng < 180)%Q lngs) /\
  NoDup (col_id t) /\
  Forall (fun v => py_str v <> "" /\ py_str v <> "0") (col_id t) /\
  Forall (fun o => PStr (py_str o) ∈ col_id t) (col_outlet_id t) /\
  (validate t).2 = outlet_id_astype_str (id_astype_str t).
Proof.
  intros H. destruct (validate_true_inv t H) as (H1 & H2 & H3 & H4).
  split; [done|]. split; [done|]. split; [|done]. by apply set_len_NoDup.
Qed.

(** X5. [validate] never returns [True] for a table read with integer ids (and at
    least one row): the ids are kept as ints for the [outlet_id] check while the
    outlet ids are turned into strings, so no outlet id is ever found among them. *)
Theorem validate_rejects_int_ids t :
  Forall (fun v => exists z, v = PInt z) (col_id t) -> col_outlet_id t <> [] ->
  (validate t).1 <> ReturnsTrue.
Proof.
  intros Hint Hne H. destruct (validate_true_inv t H) as (_ & _ & _ & _ & Ho & _).
  destruct (col_outlet_id t) as [|o os]; [done|]. apply Forall_cons in Ho as [Ho _].
  rewrite Forall_forall in Hint. destruct (Hint _ Ho) as [z Hz]. discriminate Hz.
Qed.

(** X6. [validate] never raises ["Outlet ids must be unique. No duplicates are
    allowed!"]: a table with a repeated id has already been refused by the earlier
    uniqueness check on [gages_df['id'].unique()]. *)
Theorem validate_second_uniqueness_check_unreachable t :
  (validate t).1 <> RaisesValueError "Outlet ids must be unique. No duplicates are allowed!".
Proof.
  unfold validate.
  destruct (List.find _ required_cols) eqn:Ef; [simpl; msg_neq|].
  destruct (set_len (col_id t) =? length (col_id t)) eqn:Eu; [|simpl; msg_neq].
  simpl. destruct (col_lat t), (col_lng t); simpl; try msg_neq.
  repeat match goal with
    |- context [if ?b then _ else _] => destruct b eqn:?; simpl; try msg_neq end.
  exfalso. apply negb_true_iff in Heqb5. unfold has_unique_elements in Heqb5.
  rewrite Nat.eqb_sym in Heqb5. congruence.
Qed.

(** X7. A table lacking one of [id], [lat], [lng], [outlet_id] makes [validate]
    raise ["Missing column in CSV file: <col>"] for a required column it lacks,
    before it reads or changes anything. *)
Theorem validate_missing_column t col :
  col ∈ required_cols -> col ∉ columns t ->
  exists c, c ∈ required_cols /\ (c ∉ columns t) /\
    validate t = (RaisesValueError ("Missing column in CSV file: " +:+ c), t).
Proof.
  intros Hc Hn. unfold validate.
  destruct (List.find _ required_cols) as [c|] eqn:Ef.
  - apply find_some in Ef as [Hin Hf]. apply negb_true_iff, bool_decide_eq_false in Hf.
    exists c. split; [by apply list_elem_of_In|]. done.
  - exfalso. apply list_elem_of_In in Hc. pose proof (find_none _ _ Ef col Hc) as Hf.
    apply negb_false_iff, bool_decide_eq_true in Hf. done.
Qed.

Lemma validate_true_guarantees_witness :
  (validate gages_str_ids).1 = ReturnsTrue /\ NoDup (col_id gages_str_ids).
Proof.
  split; [vm_compute; reflexivity|].
  apply (validate_true_guarantees gages_str_ids). vm_compute. reflexivity.
Defined.

Lemma validate_rejects_int_ids_witness :
  Forall (fun v => exists z, v = PInt z) (col_id gages_int_ids) /\
  col_outlet_id gages_int_ids <> [] /\ (validate gages_int_ids).1 <> ReturnsTrue.
Proof.
  assert (H1 : Forall (fun v => exists z, v = PInt z) (col_id gages_int_ids))
    by (simpl; repeat constructor; eexists; reflexivity).
  assert (H2 : col_outlet_id gages_int_ids <> []) by discriminate.
  split; [exact H1|]. split; [exact H2|]. exact (validate_rejects_int_ids gages_int_ids H1 H2).
Defined.

Lemma validate_missing_column_witness :
  "outlet_id" ∈ required_cols /\ ("outlet_id" ∉ columns gages_no_outlet) /\
  exists c, c ∈ required_cols /\ (c ∉ columns gages_no_outlet) /\
    validate gages_no_outlet = (RaisesValueError ("Missing column in CSV file: " +:+ c), gages_no_outlet).
Proof.
  assert (H1 : "outlet_id" ∈ required_cols) by (apply (bool_decide_unpack _); vm_compute; exact I).
  assert (H2 : "outlet_id" ∉ columns gages_no_outlet) by (apply (bool_decide_unpack _); vm_compute; exact I).
  split; [exact H1|]. split; [exact H2|]. exact (validate_missing_column _ _ H1 H2).
Defined.

(* ------------------------------------------------------------------ *)
(** ** Output folders *)

Section FolderProofs.
Variable FS : Type.
Variable path_exists : FS -> string -> bool.
Variable makedirs : FS -> string -> FS * bool.
(** A successful [os.makedirs] leaves the folder existing, and no call removes one. *)
Hypothesis makedirs_creates :
  forall fs p fs', makedirs fs p = (fs', true) -> path_exists fs' p = true.
Hypothesis makedirs_keeps :
  forall fs p fs' b q, makedirs fs p = (fs', b) -> path_exists fs q = true ->
  path_exists fs' q = true.

Lemma create_folder_ok fs p fs' :
  create_folder_if_not_exists FS path_exists makedirs fs p = (fs', true) ->
  path_exists fs' p = true /\ forall q, path_exists fs q = true -> path_exists fs' q = true.
Proof.
  unfold create_folder_if_not_exists. destruct (path_exists fs p) eqn:E; simpl.
  - intros H. injection H as <-. done.
  - intros H. split; [by eapply makedirs_creates|]. intros q. by eapply makedirs_keeps.
Qed.

Lemma make_folders_loop_ok folders fs fs' :
  make_folders_loop FS path_exists makedirs folders fs = (fs', None) ->
  (forall q, path_exists fs q = true -> path_exists fs' q = true) /\
  Forall (fun f => f <> "" -> path_exists fs' f = true) folders.
Proof.
  revert fs. induction folders as [|f rest IH]; intros fs H; simpl in H.
  - injection H as <-. split; [done|constructor].
  - destruct (String.eqb f "") eqn:Ee.
    + apply String.eqb_eq in Ee as ->. destruct (IH fs H) as [Hk Hf].
      split; [done|]. constructor; [done|exact Hf].
    + destruct (create_folder_if_not_exists FS path_exists makedirs fs f) as [fs1 [|]] eqn:Ec;
        [|discriminate].
      destruct (create_folder_ok fs f fs1 Ec) as [Hf1 Hk1]. destruct (IH fs1 H) as [Hk Hf].
      split; [auto|]. constructor; [|exact Hf]. intros _. auto.
Qed.

End FolderProofs.

(** X8. If [make_folders] returns without raising (and [os.makedirs] behaves as a
    file system does), each of [OUTPUT_DIR], [PLOTS_DIR] and [CACHE_DIR] that is
    not [''] exists afterwards. *)
Theorem make_folders_success_folders_exist (FS : Type) (path_exists : FS -> string -> bool)
    (makedirs : FS -> string -> FS * bool)
    (makedirs_creates :
       forall fs p fs', makedirs fs p = (fs', true) -> path_exists fs' p = true)
    (makedirs_keeps :
       forall fs p fs' b q, makedirs fs p = (fs', b) -> path_exists fs q = true ->
       path_exists fs' q = true)
    OUTPUT_DIR PLOTS_DIR CACHE_DIR fs fs' :
  make_folders FS path_exists makedirs OUTPUT_DIR PLOTS_DIR CACHE_DIR fs = (fs', None) ->
  Forall (fun f => f <> "" -> path_exists fs' f = true) [OUTPUT_DIR; PLOTS_DIR; CACHE_DIR].
Proof. intros H. by apply (make_folders_loop_ok FS path_exists makedirs makedirs_creates makedirs_keeps _ fs). Qed.

Lemma make_folders_success_folders_exist_witness :
  make_folders _ list_exists list_makedirs "out" "" "cache" ["out"] =
    (["cache"; "out"], None) /\
  Forall (fun f => f <> "" -> list_exists ["cache"; "out"] f = true) ["out"; ""; "cache"].
Proof.
  assert (Hm : make_folders _ list_exists list_makedirs "out" "" "cache" ["out"] =
                 (["cache"; "out"], None)) by (vm_compute; reflexivity).
  split; [exact Hm|].
  refine (make_folders_success_folders_exist _ list_exists list_makedirs _ _ "out" "" "cache"
            ["out"] ["cache"; "out"] Hm).
  - intros fs p fs' H. injection H as <-. unfold list_exists. apply bool_decide_eq_true.
    by left.
  - intros fs p fs' b q H Hq. injection H as <- _. unfold list_exists in *.
    apply bool_decide_eq_true. apply bool_decide_eq_true in Hq. by right.
Defined.

(* ------------------------------------------------------------------ *)
(** ** Saving the river network *)

(** X9. [save_network] never reaches its [ValueError] branch; it writes the graph
    exactly when [file_ext] is one of [pkl], [gml], [xml], [json] (compared as
    given, so ["PKL"] is refused with a [Warning]), and then to the file
    [OUTPUT_DIR/<prefix>_graph.<file_ext>]. *)
Theorem save_network_writes_iff_allowed OUTPUT_DIR prefix file_ext :
  (forall msg, save_network OUTPUT_DIR prefix file_ext <> SaveValueError msg) /\
  ((exists w f, save_network OUTPUT_DIR prefix file_ext = Saved w f) <->
   file_ext ∈ allowed_formats) /\
  (forall w f, save_network OUTPUT_DIR prefix file_ext = Saved w f ->
   f = OUTPUT_DIR +:+ "/" +:+ prefix +:+ "_graph." +:+ file_ext).
Proof.
  unfold save_network. case_bool_decide as Ha; simpl.
  - assert (exists w, (if String.eqb file_ext "pkl" then Saved PickleDump
      (OUTPUT_DIR +:+ "/" +:+ prefix +:+ "_graph." +:+ file_ext)
      else if String.eqb file_ext "json" then Saved JsonDump
      (OUTPUT_DIR +:+ "/" +:+ prefix +:+ "_graph." +:+ file_ext)
      else if String.eqb file_ext "gml" then Saved WriteGml
      (OUTPUT_DIR +:+ "/" +:+ prefix +:+ "_graph." +:+ file_ext)
      else if String.eqb file_ext "xml" then Saved WriteGraphml
      (OUTPUT_DIR +:+ "/" +:+ prefix +:+ "_graph." +:+ file_ext)
      else SaveValueError ("Unhandled file extension " +:+ file_ext)) =
      Saved w (OUTPUT_DIR +:+ "/" +:+ prefix +:+ "_graph." +:+ file_ext)) as [w Hw].
    { unfold allowed_formats in Ha. rewrite !elem_of_cons, elem_of_nil in Ha.
      destruct Ha as [->|[->|[->|[->|[]]]]]; eexists; reflexivity. }
    rewrite Hw. split; [discriminate|]. split.
    + split; [done|]. intros _. by exists w, (OUTPUT_DIR +:+ "/" +:+ prefix +:+ "_graph." +:+ file_ext).
    + intros w' f H. by injection H as _ <-.
  - split; [discriminate|]. split.
    + split; [intros (w & f & H); discriminate|done].
    + discriminate.
Qed.

(* ------------------------------------------------------------------ *)
(** ** The paths of [load_gdf] *)

Lemma append_length_str s1 s2 :
  String.length (s1 +:+ s2) = String.length s1 + String.length s2.
Proof. induction s1 as [|c s1 IH]; simpl; [done|]. by rewrite IH. Qed.

Lemma append_cancel_r s1 s2 s :
  s1 +:+ s = s2 +:+ s -> s1 = s2.
Proof.
  revert s2. induction s1 as [|c s1 IH]; intros [|c' s2] H; simpl in H.
  - done.
  - exfalso. apply (f_equal String.length) in H. simpl in H.
    rewrite ?append_length_str in H. simpl in H. lia.
  - exfalso. apply (f_equal String.length) in H. simpl in H.
    rewrite ?append_length_str in H. simpl in H. lia.
  - injection H as -> H. f_equal. by apply IH.
Qed.

Lemma uint_str_inj u1 u2 : uint_str u1 = uint_str u2 -> u1 = u2.
Proof.
  revert u2. induction u1; intros []; simpl; intros H; try discriminate H;
    try (injection H as H; f_equal; by apply IHu1); done.
Qed.

Lemma uint_str_not_dash u s : uint_str u <> "-" +:+ s.
Proof. destruct u; simpl; discriminate. Qed.

Lemma str_Z_inj z1 z2 : str_Z z1 = str_Z z2 -> z1 = z2.
Proof.
  unfold str_Z. intros H. apply DecimalZ.to_int_inj.
  destruct (Z.to_int z1) as [u1|u1], (Z.to_int z2) as [u2|u2].
  - by rewrite (uint_str_inj u1 u2 H).
  - by apply uint_str_not_dash in H.
  - symmetry in H. by apply uint_str_not_dash in H.
  - simpl in H. injection H as H. by rewrite (uint_str_inj u1 u2 H).
Qed.

(** X10. Two datasets read by [load_gdf] never share a local cache file: equal
    [local_path]s come from the same [geotype] and the same [basin]. *)
Theorem load_gdf_local_path_injective CACHE_DIR CATCHMENT_PATH RIVER_PATH g1 g2 b1 b2 u1 u2 l :
  load_gdf_paths CACHE_DIR CATCHMENT_PATH RIVER_PATH g1 b1 = Some (u1, l) ->
  load_gdf_paths CACHE_DIR CATCHMENT_PATH RIVER_PATH g2 b2 = Some (u2, l) ->
  g1 = g2 /\ b1 = b2.
Proof.
  unfold load_gdf_paths.
  destruct (String.eqb g1 "catchments") eqn:E1; [apply String.eqb_eq in E1 as ->|];
  [|destruct (String.eqb g1 "rivers") eqn:E1'; [apply String.eqb_eq in E1' as ->|done]];
  (destruct (String.eqb g2 "catchments") eqn:E2; [apply String.eqb_eq in E2 as ->|];
   [|destruct (String.eqb g2 "rivers") eqn:E2'; [apply String.eqb_eq in E2' as ->|done]]);
  simpl; intros H1 H2; injection H1 as _ <-; injection H2 as _ H;
  apply (inj (String.append CACHE_DIR)), (inj (String.append "/")) in H;
  first
    [ apply (inj (String.append "cat_pfaf_")), append_cancel_r, str_Z_inj in H; done
    | apply (inj (String.append "riv_pfaf_")), append_cancel_r, str_Z_inj in H; done
    | apply (f_equal (String.substring 0 1)) in H; discriminate H ].
Qed.

Lemma load_gdf_local_path_injective_witness :
  load_gdf_paths "cache" "https://cat" "https://riv" "rivers" 42 =
    Some ("https://riv/riv_pfaf_42_MERIT_Hydro_v07_Basins_v01.gpkg",
          "cache/riv_pfaf_42_MERIT_Hydro_v07_Basins_v01.gpkg") /\
  "rivers" = "rivers" /\ 42%Z = 42%Z.
Proof.
  assert (H : load_gdf_paths "cache" "https://cat" "https://riv" "rivers" 42 =
    Some ("https://riv/riv_pfaf_42_MERIT_Hydro_v07_Basins_v01.gpkg",
          "cache/riv_pfaf_42_MERIT_Hydro_v07_Basins_v01.gpkg")) by (vm_compute; reflexivity).
  split; [exact H|]. exact (load_gdf_local_path_injective _ _ _ _ _ _ _ _ _ _ H H).
Defined.

(* ------------------------------------------------------------------ *)
(** ** Command-line options *)

Lemma dict_get_cons x k v d :
  dict_get x ((k, v) :: d) = if String.eqb k x then Some v else dict_get x d.
Proof. unfold dict_get. simpl. by destruct (String.eqb k x). Qed.

Lemma dict_get_set x k v d :
  dict_get x (dict_set k v d) = if String.eqb k x then Some v else dict_get x d.
Proof.
  induction d as [|[k' v'] d IH]; cbn [dict_set].
  - rewrite dict_get_cons. by destruct (String.eqb k x).
  - destruct (String.eqb k' k) eqn:E.
    + apply String.eqb_eq in E as ->. rewrite !dict_get_cons. by destruct (String.eqb k x).
    + rewrite !dict_get_cons, IH.
      destruct (String.eqb k' x) eqn:E1, (String.eqb k x) eqn:E2; try done.
      apply String.eqb_eq in E1, E2. subst. by rewrite String.eqb_refl in E.
Qed.

Lemma dict_set_keys x k v d : x ∈ map fst (dict_set k v d) -> x = k \/ x ∈ map fst d.
Proof.
  induction d as [|[k' v'] d IH]; simpl.
  - rewrite list_elem_of_singleton. by left.
  - destruct (String.eqb k' k) eqn:E; simpl; rewrite !elem_of_cons.
    + apply String.eqb_eq in E as ->. tauto.
    + intros [->|Hx]; [tauto|]. destruct (IH Hx); tauto.
Qed.

Lemma dict_set_fresh k v d : k ∉ map fst d -> dict_set k v d = d ++ [(k, v)].
Proof.
  induction d as [|[k' v'] d IH]; simpl; [done|]. rewrite elem_of_cons. intros Hk.
  destruct (String.eqb k' k) eqn:E.
  - apply String.eqb_eq in E as ->. tauto.
  - f_equal. apply IH. tauto.
Qed.

Lemma fold_dict_set_fresh (l acc : list (string * cval)) :
  NoDup (map fst (acc ++ l)) ->
  fold_left (fun ns kv => dict_set kv.1 kv.2 ns) l acc = acc ++ l.
Proof.
  revert acc. induction l as [|[k v] l IH]; intros acc Hnd; simpl; [by rewrite app_nil_r|].
  rewrite dict_set_fresh.
  - rewrite IH; [by rewrite <- app_assoc|]. by rewrite <- app_assoc.
  - rewrite map_app in Hnd. simpl in Hnd. apply NoDup_app in Hnd as (_ & Hd & _).
    intros Hk. apply (Hd k Hk). by left.
Qed.

Lemma in_config_spec cfg k : in_config cfg k = true <-> k ∈ map fst cfg.
Proof.
  unfold in_config. rewrite existsb_exists, list_elem_of_In, in_map_iff. split.
  - intros ([k' v] & Hin & Heq). apply String.eqb_eq in Heq. simpl in Heq; subst.
    by exists (k, v).
  - intros ([k' v] & Heq & Hin). simpl in Heq; subst. exists (k, v). split; [done|].
    apply String.eqb_refl.
Qed.

Lemma dest_of_no_dash s : has_dash s = false -> dest_of s = s.
Proof.
  induction s as [|c s IH]; simpl; [done|]. rewrite orb_false_iff. intros [Hc Hs].
  rewrite Hc, IH by done. done.
Qed.

Lemma substring_all s : String.substring 0 (String.length s) s = s.
Proof. induction s as [|c s IH]; simpl; [done|]. by rewrite IH. Qed.

Lemma removeprefix_NO k : removeprefix "NO_" ("NO_" +:+ k) = k.
Proof.
  unfold removeprefix. simpl. destruct k as [|c k]; simpl; [done|].
  by rewrite substring_all.
Qed.

(** The destination of a config entry's option, for keys without [-]. *)
Definition arg_dest (kv : string * cval) : string :=
  match kv.2 with CBool true => "NO_" +:+ kv.1 | _ => kv.1 end.

(** The key a [vars(args)] entry is written to, with the value written. *)
Definition step_target (cfg : list (string * cval)) (kv : string * cval)
    : option (string * cval) :=
  let '(key, val) := kv in
  if in_config cfg key then Some (key, val)
  else if in_config cfg (removeprefix "NO_" key)
  then Some (removeprefix "NO_" key, CBool (negb (truthy val))) else None.

Lemma config_step_target cfg d kv :
  config_step cfg d kv =
  match step_target cfg kv with Some (k, v) => dict_set k v d | None => d end.
Proof.
  destruct kv as [key val]. unfold config_step, step_target.
  destruct (in_config cfg key); [done|]. by destruct (in_config cfg _).
Qed.

Lemma fold_config_other cfg k l d :
  Forall (fun e => match step_target cfg e with Some (k', _) => k' <> k | None => True end) l ->
  dict_get k (fold_left (config_step cfg) l d) = dict_get k d.
Proof.
  revert d. induction l as [|e l IH]; intros d Hl; simpl; [done|].
  apply Forall_cons in Hl as [He Hl]. rewrite IH by done. rewrite config_step_target.
  destruct (step_target cfg e) as [[k' v]|]; [|done].
  rewrite dict_get_set. destruct (String.eqb k' k) eqn:E; [|done].
  apply String.eqb_eq in E. done.
Qed.

Lemma fold_config_target cfg k v l1 e l2 d :
  Forall (fun e => match step_target cfg e with Some (k', _) => k' <> k | None => True end)
    (l1 ++ l2) ->
  step_target cfg e = Some (k, v) ->
  dict_get k (fold_left (config_step cfg) (l1 ++ e :: l2) d) = Some v.
Proof.
  intros Hl He. apply Forall_app in Hl as [H1 H2].
  rewrite fold_left_app. simpl. rewrite fold_config_other by done.
  rewrite config_step_target, He, dict_get_set, String.eqb_refl. done.
Qed.

(** The assumptions on [_GLOBAL_CONFIG] under which each key has one option:
    distinct keys without [-], no key [NO_<key>] beside a key [<key>], and none named
    like the two positionals. *)
Definition config_ok (cfg : list (string * cval)) : Prop :=
  NoDup (map fst cfg) /\
  Forall (fun kv => has_dash kv.1 = false /\ (("NO_" +:+ kv.1) ∉ map fst cfg) /\
                    kv.1 <> "input_csv" /\ kv.1 <> "output_prefix") cfg.

Lemma dest_of_NO k : dest_of ("NO_" +:+ k) = "NO_" +:+ dest_of k.
Proof. reflexivity. Qed.

Lemma arg_of_no_dash kv :
  has_dash kv.1 = false ->
  arg_of kv = match kv.2 with
              | CBool true => StoreTrue ("NO_" +:+ kv.1)
              | CBool false => StoreTrue kv.1
              | d => Typed kv.1 d
              end.
Proof.
  intros Hd. destruct kv as [k d]. unfold arg_of. cbn [fst snd] in *.
  rewrite dest_of_NO, dest_of_no_dash by done. by destruct d as [[]| | | |].
Qed.

Lemma arg_value_dest cmdline kv :
  has_dash kv.1 = false -> (arg_value cmdline (arg_of kv)).1 = arg_dest kv.
Proof.
  intros Hd. rewrite arg_of_no_dash by done. unfold arg_dest.
  destruct kv as [k [[]| | | |]]; done.
Qed.

Lemma step_target_arg cfg cmdline kv :
  config_ok cfg -> kv ∈ cfg ->
  step_target cfg (arg_value cmdline (arg_of kv)) = Some (kv.1, cli_value cmdline kv.1 kv.2).
Proof.
  intros [Hnd Hall] Hkv. rewrite Forall_forall in Hall.
  destruct (Hall kv Hkv) as (Hd & Hno & _ & _).
  assert (Hin : in_config cfg kv.1 = true).
  { apply in_config_spec. by apply list_elem_of_fmap_2. }
  rewrite arg_of_no_dash by done.
  destruct kv as [k [[]| | | |]]; cbn [fst snd] in *; unfold step_target, arg_value, cli_value;
    rewrite ?Hin; try done.
  destruct (in_config cfg ("NO_" +:+ k)) eqn:Ei; [apply in_config_spec in Ei; done|].
  rewrite removeprefix_NO, Hin. done.
Qed.

Lemma NoDup_arg_dest cfg :
  NoDup (map fst cfg) -> (forall kv, kv ∈ cfg -> ("NO_" +:+ kv.1) ∉ map fst cfg) ->
  forall l, (forall kv, kv ∈ l -> kv ∈ cfg) -> NoDup (map fst l) -> NoDup (map arg_dest l).
Proof.
  intros _ Hno l. induction l as [|kv l IH]; intros Hsub Hnd; simpl; [constructor|].
  simpl in Hnd. apply NoDup_cons in Hnd as [Hk Hnd]. constructor.
  - intros Hin. apply list_elem_of_fmap in Hin as (kv' & Heq & Hkv').
    assert (Hc : kv ∈ cfg) by (apply Hsub; by left).
    assert (Hc' : kv' ∈ cfg) by (apply Hsub; by right).
    unfold arg_dest in Heq.
    destruct kv as [k d], kv' as [k' d']; simpl in *.
    assert (Hkk : k <> k') by (intros ->; apply Hk; by apply (list_elem_of_fmap_2 fst l (k', d'))).
    destruct d as [[]| | | |], d' as [[]| | | |]; simpl in Heq;
      try (apply (inj (String.append "NO_")) in Heq; by apply Hkk);
      try (by apply Hkk);
      try (apply (Hno _ Hc); simpl; rewrite Heq; exact (list_elem_of_fmap_2 fst cfg _ Hc'));
      try (apply (Hno _ Hc'); simpl; rewrite <- Heq; exact (list_elem_of_fmap_2 fst cfg _ Hc)).
  - apply IH; [|done]. intros kv' ?. apply Hsub. by right.
Qed.

Lemma parse_args_list cfg input_csv output_prefix cmdline :
  config_ok cfg ->
  parse_args cfg input_csv output_prefix cmdline =
  ("input_csv", CStr input_csv) :: ("output_prefix", CStr output_prefix)
    :: map (fun e => arg_value cmdline (arg_of e)) cfg.
Proof.
  intros [Hnd Hall]. unfold parse_args. apply (fold_dict_set_fresh _ []). simpl.
  rewrite Forall_forall in Hall.
  assert (Hmap : map fst (map (fun e => arg_value cmdline (arg_of e)) cfg) = map arg_dest cfg).
  { rewrite map_map. apply map_ext_in. intros kv Hkv. apply arg_value_dest.
    apply Hall. by apply list_elem_of_In. }
  rewrite Hmap.
  assert (Hpos : forall x, x = "input_csv" \/ x = "output_prefix" -> x ∉ map arg_dest cfg).
  { intros x Hx Hin. apply list_elem_of_fmap in Hin as ([k d] & Heq & Hkv).
    destruct (Hall _ Hkv) as (_ & _ & H1 & H2). simpl in *.
    unfold arg_dest in Heq. simpl in Heq.
    destruct d as [[]| | | |]; destruct Hx as [->| ->]; try discriminate Heq; subst; done. }
  constructor; [rewrite elem_of_cons; intros [H|H]; [discriminate H|by apply (Hpos "input_csv"); [left|]]|].
  constructor; [by apply Hpos; right|].
  apply (NoDup_arg_dest cfg Hnd); [|done|done].
  intros kv Hkv. by destruct (Hall kv Hkv) as (_ & Hn & _).
Qed.

(** X11. Under [config_ok], the [config_vals] passed to [delineate] give each key
    of [_GLOBAL_CONFIG]: [False] if its default is [True] and [--NO_<key>] is given,
    [True] if its default is [False] and [--<key>] is given, the given value of
    [--<key>] otherwise, and its default when the option is absent. *)
Theorem config_vals_cli_value cfg input_csv output_prefix cmdline key default_val :
  config_ok cfg -> (key, default_val) ∈ cfg ->
  dict_get key (config_vals_of cfg input_csv output_prefix cmdline) =
  Some (cli_value cmdline key default_val).
Proof.
  intros Hok Hkv. unfold config_vals_of. rewrite (parse_args_list _ _ _ _ Hok).
  pose proof Hok as [Hnd Hall].
  apply list_elem_of_split in Hkv as (c1 & c2 & Hc).
  assert (Hkeys : (key ∉ map fst c1) /\ (key ∉ map fst c2)).
  { rewrite Hc, map_app in Hnd. simpl in Hnd.
    apply NoDup_app in Hnd as (_ & Hd & Hnd2). apply NoDup_cons in Hnd2 as [Hn2 _].
    split; [|done]. intros Hin. apply (Hd key Hin). by left. }
  assert (Htgt : forall kv, kv ∈ c1 ++ c2 ->
    match step_target cfg (arg_value cmdline (arg_of kv)) with
    | Some (k', _) => k' <> key | None => True end).
  { intros kv Hkv. rewrite step_target_arg; [|done|].
    - intros Heq. rewrite elem_of_app in Hkv. subst key.
      destruct Hkv as [Hkv|Hkv]; [apply (proj1 Hkeys)|apply (proj2 Hkeys)];
        by apply list_elem_of_fmap_2.
    - rewrite Hc, elem_of_app, elem_of_cons. rewrite elem_of_app in Hkv. tauto. }
  assert (Hl : map (fun e => arg_value cmdline (arg_of e)) cfg =
    map (fun e => arg_value cmdline (arg_of e)) c1 ++
    arg_value cmdline (arg_of (key, default_val)) :: map (fun e => arg_value cmdline (arg_of e)) c2)
    by (rewrite Hc, map_app; done).
  rewrite Hl, !app_comm_cons.
  apply fold_config_target.
  - rewrite Forall_forall in Hall.
    assert (Hpos : forall x c, x = "input_csv" \/ x = "output_prefix" ->
      step_target cfg (x, c) = None).
    { intros x c Hx. unfold step_target.
      assert (Hx' : in_config cfg x = false).
      { destruct (in_config cfg x) eqn:E; [|done]. apply in_config_spec in E.
        apply list_elem_of_fmap in E as ([k d] & -> & Hkd).
        destruct (Hall _ Hkd) as (_ & _ & H1 & H2). simpl in *. tauto. }
      assert (Hs : removeprefix "NO_" x = x) by (destruct Hx as [-> | ->]; reflexivity).
      rewrite Hx', Hs, Hx'. done. }
    apply Forall_app. split.
    + constructor; [by rewrite Hpos by (by left)|]. constructor; [by rewrite Hpos by (by right)|].
      apply Forall_forall. intros e He. apply list_elem_of_fmap in He as (kv & -> & Hkv).
      apply Htgt. rewrite elem_of_app. by left.
    + apply Forall_forall. intros e He. apply list_elem_of_fmap in He as (kv & -> & Hkv).
      apply Htgt. rewrite elem_of_app. by right.
  - apply (step_target_arg cfg cmdline (key, default_val) Hok).
    rewrite Hc, elem_of_app, elem_of_cons. tauto.
Qed.

(** X12. [config_vals] only ever holds keys of [_GLOBAL_CONFIG]: the positionals
    [input_csv] and [output_prefix], and any unknown attribute, are left out. *)
Theorem config_vals_only_config_keys cfg input_csv output_prefix cmdline k :
  k ∈ map fst (config_vals_of cfg input_csv output_prefix cmdline) -> k ∈ map fst cfg.
Proof.
  unfold config_vals_of.
  assert (Hgen : forall l d, (forall x, x ∈ map fst d -> x ∈ map fst cfg) ->
            forall x, x ∈ map fst (fold_left (config_step cfg) l d) -> x ∈ map fst cfg).
  { induction l as [|e l IH]; intros d Hd; simpl; [done|]. apply IH.
    intros x Hx. rewrite config_step_target in Hx. unfold step_target in Hx.
    destruct e as [key val].
    destruct (in_config cfg key) eqn:E1;
      [|destruct (in_config cfg (removeprefix "NO_" key)) eqn:E2]; try by apply Hd.
    - apply dict_set_keys in Hx as [->|Hx]; [by apply in_config_spec|by apply Hd].
    - apply dict_set_keys in Hx as [->|Hx]; [by apply in_config_spec|by apply Hd]. }
  apply Hgen. intros x Hx. by apply not_elem_of_nil in Hx.
Qed.

Lemma config_vals_cli_value_witness :
  config_ok demo_config /\ ("VERBOSE", CBool true) ∈ demo_config /\
  dict_get "VERBOSE" (config_vals_of demo_config "outlets.csv" "run" demo_cmdline) =
    Some (CBool false).
Proof.
  assert (Hok : config_ok demo_config).
  { split; [apply (bool_decide_unpack _); vm_compute; exact I|].
    repeat constructor; try (apply (bool_decide_unpack _); vm_compute; exact I);
      discriminate. }
  assert (Hin : ("VERBOSE", CBool true) ∈ demo_config) by by left.
  split; [exact Hok|]. split; [exact Hin|].
  exact (config_vals_cli_value demo_config "outlets.csv" "run" demo_cmdline _ _ Hok Hin).
Defined.

(* ------------------------------------------------------------------ *)
(** ** More on [get_largest], the rasters and [split_catchment] *)

Section MoreGeometry.
Local Open Scope Q_scope.

Lemma index_of_Some x (l : list Q) i :
  index_of x l = Some i ->
  (exists y, l !! i = Some y /\ y == x) /\
  forall j y, (j < i)%nat -> l !! j = Some y -> ~ y == x.
Proof.
  revert i. induction l as [|z l IH]; intros i H; simpl in H; [discriminate|].
  destruct (Qeq_bool z x) eqn:E.
  - injection H as <-. split; [exists z; split; [done|by apply Qeq_bool_iff]|].
    intros j y Hj. lia.
  - destruct (index_of x l) as [i'|] eqn:Ei; simpl in H; [|discriminate]. injection H as <-.
    destruct (IH i' eq_refl) as [Hf Hb]. split; [done|].
    intros [|j] y Hj Hy; simpl in Hy.
    + injection Hy as <-. intros Heq. apply Qeq_bool_iff in Heq. congruence.
    + apply (Hb j y); [lia|done].
Qed.

Lemma fold_min_le_init (f : point -> Q) (ps : list point) a :
  fold_left (fun b q => Qmin b (f q)) ps a <= a.
Proof.
  revert a. induction ps as [|r ps IH]; intros a; simpl; [apply Qle_refl|].
  eapply Qle_trans; [apply IH|apply Q.le_min_l].
Qed.

Lemma fold_min_le (f : point -> Q) (ps : list point) a x :
  x ∈ ps -> fold_left (fun b q => Qmin b (f q)) ps a <= f x.
Proof.
  revert a. induction ps as [|r ps IH]; intros a Hx; [by apply not_elem_of_nil in Hx|].
  simpl. apply elem_of_cons in Hx as [->|Hx]; [|by apply IH].
  eapply Qle_trans; [apply fold_min_le_init|apply Q.le_min_r].
Qed.

Lemma fold_max_ge_init (f : point -> Q) (ps : list point) a :
  a <= fold_left (fun b q => Qmax b (f q)) ps a.
Proof.
  revert a. induction ps as [|r ps IH]; intros a; simpl; [apply Qle_refl|].
  eapply Qle_trans; [apply Q.le_max_l|apply IH].
Qed.

Lemma fold_max_ge (f : point -> Q) (ps : list point) a x :
  x ∈ ps -> f x <= fold_left (fun b q => Qmax b (f q)) ps a.
Proof.
  revert a. induction ps as [|r ps IH]; intros a Hx; [by apply not_elem_of_nil in Hx|].
  simpl. apply elem_of_cons in Hx as [->|Hx]; [|by apply IH].
  eapply Qle_trans; [apply Q.le_max_r|apply fold_max_ge_init].
Qed.

Lemma geom_bounds_contains g pt :
  pt ∈ points_of g ->
  xmin (geom_bounds g) <= pt.1 /\ pt.1 <= xmax (geom_bounds g) /\
  ymin (geom_bounds g) <= pt.2 /\ pt.2 <= ymax (geom_bounds g).
Proof.
  unfold geom_bounds. destruct (points_of g) as [|p ps]; [by intros ?%not_elem_of_nil|].
  cbn [xmin ymin xmax ymax]. intros Hpt. apply elem_of_cons in Hpt as [->|Hpt].
  - split; [apply (fold_min_le_init fst)|]. split; [apply (fold_max_ge_init fst)|].
    split; [apply (fold_min_le_init snd)|apply (fold_max_ge_init snd)].
  - split; [by apply (fold_min_le fst)|]. split; [by apply (fold_max_ge fst)|].
    split; [by apply (fold_min_le snd)|by apply (fold_max_ge snd)].
Qed.

Lemma fold_min_lb (f : point -> Q) (ps : list point) a c :
  c <= a -> Forall (fun q => c <= f q) ps -> c <= fold_left (fun b q => Qmin b (f q)) ps a.
Proof.
  revert a. induction ps as [|r ps IH]; intros a Ha Hall; simpl; [done|].
  inversion Hall; subst. apply IH; [|done]. by apply Q.min_glb.
Qed.

Lemma fold_max_ub (f : point -> Q) (ps : list point) a c :
  a <= c -> Forall (fun q => f q <= c) ps -> fold_left (fun b q => Qmax b (f q)) ps a <= c.
Proof.
  revert a. induction ps as [|r ps IH]; intros a Ha Hall; simpl; [done|].
  inversion Hall; subst. apply IH; [|done]. by apply Q.max_lub.
Qed.

Lemma geom_bounds_range g :
  Forall (fun q => -180 <= q.1 <= 180 /\ -180 <= q.2 <= 180) (points_of g) ->
  points_of g <> [] ->
  -180 <= xmin (geom_bounds g) <= 180 /\ -180 <= ymin (geom_bounds g) <= 180 /\
  -180 <= xmax (geom_bounds g) <= 180 /\ -180 <= ymax (geom_bounds g) <= 180.
Proof.
  unfold geom_bounds. destruct (points_of g) as [|p ps]; [congruence|]. intros Hall _.
  inversion Hall as [|? ? [[Hp1 Hp2] [Hp3 Hp4]] Hps]; subst.
  assert (L1 : Forall (fun q => -180 <= q.1) ps) by (eapply Forall_impl; [exact Hps|]; intros q Hq; apply Hq).
  assert (L2 : Forall (fun q => -180 <= q.2) ps) by (eapply Forall_impl; [exact Hps|]; intros q Hq; apply Hq).
  assert (U1 : Forall (fun q => q.1 <= 180) ps) by (eapply Forall_impl; [exact Hps|]; intros q Hq; apply Hq).
  assert (U2 : Forall (fun q => q.2 <= 180) ps) by (eapply Forall_impl; [exact Hps|]; intros q Hq; apply Hq).
  cbn [xmin ymin xmax ymax].
  pose proof (fold_min_le_init fst ps p.1). pose proof (fold_min_le_init snd ps p.2).
  pose proof (fold_max_ge_init fst ps p.1). pose proof (fold_max_ge_init snd ps p.2).
  split; [split; [by apply (fold_min_lb fst)|lra]|].
  split; [split; [by apply (fold_min_lb snd)|lra]|].
  split; [split; [lra|by apply (fold_max_ub fst)]|].
  split; [lra|by apply (fold_max_ub snd)].
Qed.

End MoreGeometry.


Lemma prepare_bounding_box env req pr :
  prepare env req = Some pr ->
  bounding_box pr = grid_window (geom_bounds (catchment_poly req)).
Proof.
  unfold prepare. destruct (grid_shape env _) as [m n].
  destruct (get_largest _) as [[p|ps]|]; try discriminate.
  intros H. by injection H as <-.
Qed.

Lemma result_polygon_of_polygon env shapes g :
  result_polygon_of env shapes = Some g -> exists p, g = GPolygon p.
Proof.
  unfold result_polygon_of. destruct (mapM shape_to_polygon shapes) as [ps|]; simpl;
    [|discriminate].
  destruct (Nat.ltb 1 (length shapes)).
  - destruct (unary_union env ps) as [p|qs].
    + intros H. injection H as <-. by exists p.
    + unfold get_largest. destruct (map area qs) as [|a rest]; [discriminate|].
      destruct (index_of _ _) as [i|]; simpl; [|discriminate].
      destruct (qs !! i) as [p|]; simpl; [|discriminate]. intros H. injection H as <-.
      by exists p.
  - destruct (ps !! 0%nat) as [p|]; simpl; [|discriminate]. intros H. injection H as <-.
    by exists p.
Qed.

(** X13. For a MultiPolygon, [get_largest] returns a part of maximal area, and the
    first such part in the order of [.geoms]: every earlier part is strictly
    smaller. *)
Theorem get_largest_first_of_largest ps p :
  get_largest (GMultiPolygon ps) = Some (GPolygon p) ->
  exists i, ps !! i = Some p /\ (forall q, q ∈ ps -> (area q <= area p)%Q) /\
    (forall j q, (j < i)%nat -> ps !! j = Some q -> (area q < area p)%Q).
Proof.
  intros H. unfold get_largest in H. destruct ps as [|p0 ps']; [discriminate|].
  cbn [map] in H.
  destruct (index_of (fold_left Qmax (map area ps') (area p0)) (area p0 :: map area ps'))
    as [i|] eqn:Ei; simpl in H; [|discriminate].
  destruct ((p0 :: ps') !! i) as [p'|] eqn:Ep; simpl in H; [|discriminate].
  injection H as <-. destruct (index_of_Some _ _ _ Ei) as [(y & Hy & Hyeq) Hbefore].
  assert (Hmax : forall q, q ∈ p0 :: ps' -> (area q <= fold_left Qmax (map area ps') (area p0))%Q).
  { intros q Hq. apply fold_Qmax_ge. change (area q ∈ map area (p0 :: ps')).
    by apply list_elem_of_fmap_2. }
  assert (Hya : y = area p').
  { change (map area (p0 :: ps') !! i = Some y) in Hy. rewrite list_lookup_fmap, Ep in Hy.
    by injection Hy as <-. }
  subst y. exists i. split; [done|]. split.
  - intros q Hq. rewrite Hyeq. by apply Hmax.
  - intros j q Hj Hq. assert (Hqa : map area (p0 :: ps') !! j = Some (area q))
      by (rewrite list_lookup_fmap, Hq; done).
    pose proof (Hbefore j (area q) Hj Hqa) as Hne.
    assert (Hle : (area q <= fold_left Qmax (map area ps') (area p0))%Q)
      by (apply Hmax; by eapply list_elem_of_lookup_2).
    rewrite Hyeq. apply Qle_lteq in Hle as [Hlt|Heq]; [done|by exfalso].
Qed.

(** X14. If the traced catchment polygonizes to no shape, [split_catchment] raises
    ([shapely_polygons[0]] on an empty list) after its snap and trace calls. *)
Theorem split_catchment_no_shapes_raises env req pr lng0 lat0 cc :
  prepare env req = Some pr ->
  snap_to_mask env (streams pr) (lng req, lat req) = Some (lng0, lat0) ->
  catchment env (fdir pr) lng0 lat0 dirmap = Some cc ->
  polygonize env cc = [] ->
  split_catchment env req =
    (Raised, [ESnap (fdir pr) (acc pr) (streams pr) (lng req, lat req);
              ECatchment (fdir pr) (acc pr) lng0 lat0]).
Proof.
  intros Hp Hs Hc Hsh. unfold split_catchment. rewrite Hp, Hs, Hc, Hsh. reflexivity.
Qed.

(** X15. Whenever [split_catchment] returns a polygon, it is a single Polygon: a
    MultiPolygon from the union of several shapes is reduced by [get_largest]. *)
Theorem split_catchment_result_is_polygon env req g a b :
  fst (split_catchment env req) = Returned (Some g) a b -> exists p, g = GPolygon p.
Proof.
  unfold split_catchment. destruct (prepare env req) as [pr|]; [|discriminate].
  destruct (snap_to_mask env _ _) as [[x y]|]; [|discriminate].
  destruct (catchment env _ _ _ _) as [cc|]; [|discriminate].
  destruct (result_polygon_of env (polygonize env cc)) as [g'|] eqn:Er; [|discriminate].
  simpl. intros H. injection H as <- _ _. by eapply result_polygon_of_polygon.
Qed.


(** X17. Raising the threshold only removes stream cells: a cell that is a stream
    at threshold [t2] is one at any lower threshold [t1]. *)
Theorem threshold_grid_antitone t1 t2 acc0 c :
  (t1 <= t2)%Z -> get (threshold_grid t2 acc0) c = Some true ->
  get (threshold_grid t1 acc0) c = Some true.
Proof.
  rewrite !get_threshold_grid. intros Ht.
  destruct (get acc0 c) as [a|]; simpl; [|done]. intros H. injection H as H.
  f_equal. apply Z.ltb_lt in H. apply Z.ltb_lt. lia.
Qed.

(** X18. For a catchment polygon whose vertices are degrees in [-180, 180], every
    vertex lies inside the window read from the rasters, more than half a pixel
    (1/2400) away from each of its edges. *)
Theorem prepare_window_contains_catchment env req pr pt :
  prepare env req = Some pr ->
  Forall (fun q => (-180 <= q.1 <= 180)%Q /\ (-180 <= q.2 <= 180)%Q)
         (points_of (catchment_poly req)) ->
  pt ∈ points_of (catchment_poly req) ->
  (xmin (bounding_box pr) + (1 # 2400) < pt.1 /\ pt.1 + (1 # 2400) < xmax (bounding_box pr) /\
   ymin (bounding_box pr) + (1 # 2400) < pt.2 /\ pt.2 + (1 # 2400) < ymax (bounding_box pr))%Q.
Proof.
  intros Hp Hr Hpt. rewrite (prepare_bounding_box _ _ _ Hp).
  assert (Hne : points_of (catchment_poly req) <> []).
  { intros E. rewrite E in Hpt. by apply not_elem_of_nil in Hpt. }
  destruct (geom_bounds_range _ Hr Hne) as (R1 & R2 & R3 & R4).
  destruct (geom_bounds_contains _ _ Hpt) as (H1 & H2 & H3 & H4).
  destruct (geom_bounds (catchment_poly req)) as [x0 y0 x1 y1].
  cbn [grid_window xmin ymin xmax ymax] in *.
  destruct (window_lo_spec _ R1) as (A1 & _). destruct (window_lo_spec _ R2) as (A2 & _).
  destruct (window_hi_spec _ R3) as (A3 & _). destruct (window_hi_spec _ R4) as (A4 & _).
  repeat split; lra.
Qed.

Lemma get_largest_first_of_largest_witness :
  get_largest (GMultiPolygon [square100; square100']) = Some (GPolygon square100) /\
  square100 ∈ [square100; square100'].
Proof.
  assert (H : get_largest (GMultiPolygon [square100; square100']) = Some (GPolygon square100))
    by (vm_compute; reflexivity).
  split; [exact H|].
  destruct (get_largest_first_of_largest _ _ H) as (i & Hi & _ & _).
  by eapply list_elem_of_lookup_2.
Defined.

Lemma split_catchment_no_shapes_raises_witness :
  fst (split_catchment env_no_shapes demo_req) = Raised.
Proof.
  rewrite (split_catchment_no_shapes_raises env_no_shapes demo_req
             (prepared_of env_no_shapes demo_req) (fl (3 # 2400))%Q (fl (-3 # 2400))%Q [[1%Z]]);
    [reflexivity|vm_compute; reflexivity..].
Defined.

Lemma split_catchment_result_is_polygon_witness :
  exists g a b, fst (split_catchment env_ok demo_req) = Returned (Some g) a b /\
                exists p, g = GPolygon p.
Proof.
  do 3 eexists.
  assert (H : fst (split_catchment env_ok demo_req) =
              Returned (Some (GPolygon (Polygon unit_square []))) (Some (fl (fl (-3 # 2400) - halfpix))%Q)
                       (Some (fl (fl (3 # 2400) + halfpix))%Q)) by (vm_compute; reflexivity).
  split; [exact H|]. exact (split_catchment_result_is_polygon _ _ _ _ _ H).
Defined.

Lemma threshold_grid_antitone_witness :
  get (threshold_grid 4 demo_acc) (0%nat, 1%nat) = Some true /\
  get (threshold_grid 2 demo_acc) (0%nat, 1%nat) = Some true.
Proof.
  assert (H : get (threshold_grid 4 demo_acc) (0%nat, 1%nat) = Some true)
    by (vm_compute; reflexivity).
  split; [exact H|]. apply (threshold_grid_antitone 2 4); [lia|exact H].
Defined.

Lemma prepare_window_contains_catchment_witness :
  prepare env_ok demo_req = Some (prepared_of env_ok demo_req) /\
  Forall (fun q => (-180 <= q.1 <= 180)%Q /\ (-180 <= q.2 <= 180)%Q)
         (points_of (catchment_poly demo_req)) /\
  (0%Q, 0%Q) ∈ points_of (catchment_poly demo_req) /\
  (xmin (bounding_box (prepared_of env_ok demo_req)) + (1 # 2400) < 0)%Q.
Proof.
  assert (Hp : prepare env_ok demo_req = Some (prepared_of env_ok demo_req))
    by (vm_compute; reflexivity).
  assert (Hr : Forall (fun q => (-180 <= q.1 <= 180)%Q /\ (-180 <= q.2 <= 180)%Q)
                      (points_of (catchment_poly demo_req))).
  { cbn [points_of catchment_poly demo_req demo_poly exterior]. repeat constructor.
    all: apply Qle_bool_imp_le; vm_compute; reflexivity. }
  assert (Hin : (0%Q, 0%Q) ∈ points_of (catchment_poly demo_req)) by (vm_compute; left).
  split; [exact Hp|]. split; [exact Hr|]. split; [exact Hin|].
  exact (proj1 (prepare_window_contains_catchment _ _ _ _ Hp Hr Hin)).
Defined.

Lemma config_vals_only_config_keys_witness :
  "VERBOSE" ∈ map fst (config_vals_of demo_config "in.csv" "out" demo_cmdline) /\
  "VERBOSE" ∈ map fst demo_config.
Proof.
  assert (H : "VERBOSE" ∈ map fst (config_vals_of demo_config "in.csv" "out" demo_cmdline))
    by (apply (bool_decide_unpack _); vm_compute; exact I).
  split; [exact H|]. exact (config_vals_only_config_keys _ _ _ _ _ H).
Defined.
